(** * MosaicButton: the particle simulation, the pointer handlers and the
      icon resolver of [ai-subscription-shortcut]

    Shallow embedding of [src/components/MosaicButton.tsx] (both layout
    variants) and of [ServiceIcon].

    JavaScript [number]s are kept abstract behind the interface [JsNum], with
    two instances: exact rationals ([Q]), on which the general theorems are
    proved, and IEEE binary64 ([float], Rocq's primitive floats), on which the
    concrete scenarios are run with the rounding of the real program.
    [Math.random()] is an oracle [rnd : nat -> N]: its [k]-th call returns
    [rnd k]; the number of calls made so far is part of the state. *)

From Stdlib Require Import Reals Qreals.
From Stdlib Require Import ZArith QArith Qround Qabs Lqa String.
From Stdlib Require Import PrimFloat SpecFloat FloatOps Uint63.
From stdpp Require Import base option list.

Set Warnings "-inexact-float".

(** ** JavaScript numbers *)

Class JsNum (N : Type) : Type := {
  (** a decimal literal of the source text *)
  lit : Q -> N;
  add : N -> N -> N;
  sub : N -> N -> N;
  mul : N -> N -> N;
  div : N -> N -> N;
  (** [Math.floor] *)
  floor : N -> N;
  (** [Math.pow(a, 2)] *)
  pow2 : N -> N;
  (** [Math.sqrt(a) < b] *)
  sqrt_lt : N -> N -> bool;
  (** [a < b] and [a <= b] *)
  ltb : N -> N -> bool;
  leb : N -> N -> bool
}.

(** Exact arithmetic.  [Math.sqrt(a) < b] is decided without leaving [Q]:
    the square root of a negative number is NaN, which compares false with
    everything, a square root is never below a non-positive bound, and
    otherwise squaring both sides is an equivalence. *)
Definition Q_sqrt_lt (a b : Q) : bool :=
  Qle_bool 0 a && negb (Qle_bool b 0) && negb (Qle_bool (b * b) a).

Definition Q_lt (a b : Q) : bool := negb (Qle_bool b a).

#[export] Instance Q_JsNum : JsNum Q := {|
  lit q := q;
  add := Qplus;
  sub := Qminus;
  mul := Qmult;
  div := Qdiv;
  floor q := inject_Z (Qfloor q);
  pow2 q := Qpower q 2;
  sqrt_lt := Q_sqrt_lt;
  ltb := Q_lt;
  leb := Qle_bool
|}.

(** IEEE binary64.  A literal [n/d] of the source is the double nearest to
    it, which is the correctly rounded quotient of the two integers;
    [Math.pow(a, 2)] is the correctly rounded square. *)
Definition float_of_Z (z : Z) : float :=
  match z with
  | Z0 => PrimFloat.zero
  | Zpos _ => PrimFloat.of_uint63 (Uint63.of_Z z)
  | Zneg p => PrimFloat.opp (PrimFloat.of_uint63 (Uint63.of_Z (Zpos p)))
  end.

Definition float_lit (q : Q) : float :=
  PrimFloat.div (float_of_Z (Qnum q)) (float_of_Z (Zpos (Qden q))).

(** [Math.floor] on a double: a finite [m * 2^e] with [e >= 0] is already an
    integer; otherwise the magnitude is below [2^53] and its integer part is a
    shift of the mantissa.  Zeros, infinities and NaN are returned as they
    are. *)
Definition float_floor (f : float) : float :=
  match Prim2SF f with
  | S754_finite s m e =>
      if (0 <=? e)%Z then f
      else
        let q := Z.shiftr (Zpos m) (- e) in
        let exact := (Z.shiftl q (- e) =? Zpos m)%Z in
        if s then float_of_Z (if exact then - q else - (q + 1))
        else float_of_Z q
  | _ => f
  end.

#[export] Instance float_JsNum : JsNum float := {|
  lit := float_lit;
  add := PrimFloat.add;
  sub := PrimFloat.sub;
  mul := PrimFloat.mul;
  div := PrimFloat.div;
  floor := float_floor;
  pow2 f := PrimFloat.mul f f;
  sqrt_lt a b := PrimFloat.ltb (PrimFloat.sqrt a) b;
  ltb := PrimFloat.ltb;
  leb := PrimFloat.leb
|}.

(** ** Data model *)

(** [interface Square] (lines 13-19). *)
Record Square (N : Type) : Type := mkSquare {
  x : N;
  y : N;
  opacity : N;
  life : N;
  decay : N
}.
Arguments mkSquare {N}.
Arguments x {N}.
Arguments y {N}.
Arguments opacity {N}.
Arguments life {N}.
Arguments decay {N}.

(** The object literals [{ x, y }] held by [position] and [mousePos]. *)
Record Point (N : Type) : Type := mkPoint { px : N; py : N }.
Arguments mkPoint {N}.
Arguments px {N}.
Arguments py {N}.

(** What the handlers and [resizeCanvas] read from [containerRef.current]:
    the origin of [getBoundingClientRect()] and the layout box. *)
Record Container (N : Type) : Type := mkContainer {
  rectLeft : N;
  rectTop : N;
  offsetWidth : N;
  offsetHeight : N
}.
Arguments mkContainer {N}.
Arguments rectLeft {N}.
Arguments rectTop {N}.
Arguments offsetWidth {N}.
Arguments offsetHeight {N}.

(** Pixel dimensions of the [<canvas>] element. *)
Record Canvas (N : Type) : Type := mkCanvas { width : N; height : N }.
Arguments mkCanvas {N}.
Arguments width {N}.
Arguments height {N}.

(** The component instance: the two [useState] slots, the three [useRef]
    cells read by the animation loop, the canvas, the container the ref
    points to, and the number of [Math.random()] calls made so far. *)
Record State (N : Type) : Type := mkState {
  position : Point N;
  opacityState : N;
  mousePos : Point N;
  isHovering : bool;
  squares : list (Square N);
  canvas : Canvas N;
  containerRef : option (Container N);
  randomCalls : nat
}.
Arguments mkState {N}.
Arguments position {N}.
Arguments opacityState {N}.
Arguments mousePos {N}.
Arguments isHovering {N}.
Arguments squares {N}.
Arguments canvas {N}.
Arguments containerRef {N}.
Arguments randomCalls {N}.

(** Calls on the 2D context: [clearRect(x, y, w, h)], and [fillRect(x, y, w,
    h)] together with the [fillStyle = rgba(r, g, b, a)] set just before
    it. *)
Inductive DrawOp (N : Type) : Type :=
  | clearRect (cx cy cw ch : N)
  | fillRect (r g b : Z) (a : N) (fx fy fw fh : N).
Arguments clearRect {N}.
Arguments fillRect {N}.

(** What can happen to a mounted component: the three mouse events, the
    window's resize event, an animation frame, and a change of the layout
    (of what [containerRef.current] reports). *)
Inductive Event (N : Type) : Type :=
  | MouseMove (clientX clientY : N)
  | MouseEnter
  | MouseLeave
  | WindowResize
  | AnimationFrame
  | Layout (c : option (Container N)).
Arguments MouseMove {N}.
Arguments MouseEnter {N}.
Arguments MouseLeave {N}.
Arguments WindowResize {N}.
Arguments AnimationFrame {N}.
Arguments Layout {N}.

Section Shared.
Context {N : Type} {JN : JsNum N}.

Definition set_squares (s : State N) (l : list (Square N)) : State N :=
  mkState (position s) (opacityState s) (mousePos s) (isHovering s) l
          (canvas s) (containerRef s) (randomCalls s).

Definition set_canvas (s : State N) (c : Canvas N) : State N :=
  mkState (position s) (opacityState s) (mousePos s) (isHovering s) (squares s)
          c (containerRef s) (randomCalls s).

Definition set_containerRef (s : State N) (c : option (Container N)) : State N :=
  mkState (position s) (opacityState s) (mousePos s) (isHovering s) (squares s)
          (canvas s) c (randomCalls s).

(** [Math.random()]: the next value of the oracle. *)
Definition random (rnd : nat -> N) (s : State N) : N * State N :=
  (rnd (randomCalls s),
   mkState (position s) (opacityState s) (mousePos s) (isHovering s) (squares s)
           (canvas s) (containerRef s) (S (randomCalls s))).

End Shared.

(** ** Variant 1: centered content

    [MosaicButton], lines 21-218 of [src/components/MosaicButton.tsx]. *)
Module Centered.
Section Component.
Context {N : Type} {JN : JsNum N}.

(** The hooks (lines 24-31): the state before any effect has run. *)
Definition initial (cv : Canvas N) (c : option (Container N)) : State N :=
  mkState (mkPoint (lit (-100)) (lit (-100))) (lit 0)
          (mkPoint (lit (-1000)) (lit (-1000))) false [] cv c 0.

Definition handleMouseMove (clientX clientY : N) (s : State N) : State N :=
  match containerRef s with
  | None => s
  | Some rect =>
      let x := sub clientX (rectLeft rect) in
      let y := sub clientY (rectTop rect) in
      mkState (mkPoint x y) (lit 1) (mkPoint x y) (isHovering s) (squares s)
              (canvas s) (containerRef s) (randomCalls s)
  end.

Definition handleMouseEnter (s : State N) : State N :=
  mkState (position s) (lit 1) (mousePos s) true (squares s)
          (canvas s) (containerRef s) (randomCalls s).

Definition handleMouseLeave (s : State N) : State N :=
  mkState (position s) (lit 0) (mkPoint (lit (-1000)) (lit (-1000))) false
          (squares s) (canvas s) (containerRef s) (randomCalls s).

Definition gridSize : N := lit 40.

Definition resizeCanvas (s : State N) : State N :=
  match containerRef s with
  | Some c => set_canvas s (mkCanvas (offsetWidth c) (offsetHeight c))
  | None => s
  end.

(** The body of [if (Math.random() < 0.4)]: one spawn attempt. *)
Definition spawn (rnd : nat -> N) (s : State N) : State N :=
  let x := px (mousePos s) in
  let y := py (mousePos s) in
  let radius := lit 200 in
  let '(r1, s) := random rnd s in
  let offsetX := mul (mul (sub r1 (lit 0.5)) radius) (lit 2) in
  let '(r2, s) := random rnd s in
  let offsetY := mul (mul (sub r2 (lit 0.5)) radius) (lit 2) in
  let gridX := mul (floor (div (add x offsetX) gridSize)) gridSize in
  let gridY := mul (floor (div (add y offsetY) gridSize)) gridSize in
  let dist2 :=
    add (pow2 (sub (add gridX (div gridSize (lit 2))) x))
        (pow2 (sub (add gridY (div gridSize (lit 2))) y)) in
  if sqrt_lt dist2 radius then
    let '(r3, s) := random rnd s in
    let '(r4, s) := random rnd s in
    set_squares s
      (squares s ++
       [mkSquare gridX gridY (add (mul r3 (lit 0.5)) (lit 0.2)) (lit 1)
                 (add (mul r4 (lit 0.03)) (lit 0.01))])
  else s.

(** [if (isHovering.current) { if (Math.random() < 0.4) { ... } }]. *)
Definition spawnIfHovering (rnd : nat -> N) (s : State N) : State N :=
  if isHovering s then
    let '(r0, s) := random rnd s in
    if ltb r0 (lit 0.4) then spawn rnd s else s
  else s.

(** The loop [for (let i = squares.current.length - 1; i >= 0; i--)], with
    [n = i + 1] iterations left.  Reading [squares.current[i]] past the end
    gives [undefined], whose [.life] is a [TypeError]: [None]. *)
Fixpoint updateAndDraw (n : nat) (sqs : list (Square N)) (ops : list (DrawOp N))
  : option (list (Square N) * list (DrawOp N)) :=
  match n with
  | O => Some (sqs, ops)
  | S i =>
      match sqs !! i with
      | None => None
      | Some sq =>
          let sq := mkSquare (x sq) (y sq) (opacity sq)
                             (sub (life sq) (decay sq)) (decay sq) in
          if leb (life sq) (lit 0) then
            updateAndDraw i (delete i sqs) ops
          else
            let currentOpacity := mul (opacity sq) (life sq) in
            updateAndDraw i (<[i := sq]> sqs)
              (ops ++ [fillRect 255 255 255 currentOpacity
                                (x sq) (y sq) gridSize gridSize])
      end
  end.

(** One call of [render]: the new state and the calls made on the context.
    The guard [if (!canvas || !ctx) return] cannot fire: the effect defines
    [render] only after both were found.  [requestAnimationFrame(render)] is
    the next [AnimationFrame] event. *)
Definition render (rnd : nat -> N) (s : State N)
  : option (State N * list (DrawOp N)) :=
  let ops := [clearRect (lit 0) (lit 0) (width (canvas s)) (height (canvas s))] in
  let s := spawnIfHovering rnd s in
  match updateAndDraw (length (squares s)) (squares s) ops with
  | Some (sqs, ops) => Some (set_squares s sqs, ops)
  | None => None
  end.

(** The effect (lines 60-140): nothing is set up without a canvas and a 2D
    context; otherwise the canvas is sized and [render] runs once. *)
Definition mount (rnd : nat -> N) (cv : option (Canvas N)) (ctx : bool)
    (c : option (Container N)) : option (State N * list (DrawOp N)) :=
  match cv with
  | None => None
  | Some cv => if ctx then render rnd (resizeCanvas (initial cv c)) else None
  end.

(** One event, with what it draws. *)
Definition step (rnd : nat -> N) (e : Event N) (s : State N)
  : option (State N * list (DrawOp N)) :=
  match e with
  | MouseMove clientX clientY => Some (handleMouseMove clientX clientY s, [])
  | MouseEnter => Some (handleMouseEnter s, [])
  | MouseLeave => Some (handleMouseLeave s, [])
  | WindowResize => Some (resizeCanvas s, [])
  | AnimationFrame => render rnd s
  | Layout c => Some (set_containerRef s c, [])
  end.

(** A sequence of events, with everything drawn on the way. *)
Fixpoint run (rnd : nat -> N) (es : list (Event N)) (s : State N)
  : option (State N * list (DrawOp N)) :=
  match es with
  | [] => Some (s, [])
  | e :: es =>
      match step rnd e s with
      | None => None
      | Some (s, ops) =>
          match run rnd es s with
          | None => None
          | Some (s, ops') => Some (s, ops ++ ops')
          end
      end
  end.

(** [<ServiceIcon name={iconName} size={64} />] (line 204). *)
Definition iconSize : Z := 64.

End Component.
End Centered.

(** ** Variant 2: top/bottom split with a go-to link

    [MosaicButton], lines 239-451 of [src/components/MosaicButton.tsx]. *)
Module Split.
Section Component.
Context {N : Type} {JN : JsNum N}.

(** The hooks (lines 242-249): the state before any effect has run. *)
Definition initial (cv : Canvas N) (c : option (Container N)) : State N :=
  mkState (mkPoint (lit (-100)) (lit (-100))) (lit 0)
          (mkPoint (lit (-1000)) (lit (-1000))) false [] cv c 0.

Definition handleMouseMove (clientX clientY : N) (s : State N) : State N :=
  match containerRef s with
  | None => s
  | Some rect =>
      let x := sub clientX (rectLeft rect) in
      let y := sub clientY (rectTop rect) in
      mkState (mkPoint x y) (lit 1) (mkPoint x y) (isHovering s) (squares s)
              (canvas s) (containerRef s) (randomCalls s)
  end.

Definition handleMouseEnter (s : State N) : State N :=
  mkState (position s) (lit 1) (mousePos s) true (squares s)
          (canvas s) (containerRef s) (randomCalls s).

Definition handleMouseLeave (s : State N) : State N :=
  mkState (position s) (lit 0) (mkPoint (lit (-1000)) (lit (-1000))) false
          (squares s) (canvas s) (containerRef s) (randomCalls s).

Definition gridSize : N := lit 40.

Definition resizeCanvas (s : State N) : State N :=
  match containerRef s with
  | Some c => set_canvas s (mkCanvas (offsetWidth c) (offsetHeight c))
  | None => s
  end.

(** The body of [if (Math.random() < 0.4)]: one spawn attempt. *)
Definition spawn (rnd : nat -> N) (s : State N) : State N :=
  let x := px (mousePos s) in
  let y := py (mousePos s) in
  let radius := lit 200 in
  let '(r1, s) := random rnd s in
  let offsetX := mul (mul (sub r1 (lit 0.5)) radius) (lit 2) in
  let '(r2, s) := random rnd s in
  let offsetY := mul (mul (sub r2 (lit 0.5)) radius) (lit 2) in
  let gridX := mul (floor (div (add x offsetX) gridSize)) gridSize in
  let gridY := mul (floor (div (add y offsetY) gridSize)) gridSize in
  let dist2 :=
    add (pow2 (sub (add gridX (div gridSize (lit 2))) x))
        (pow2 (sub (add gridY (div gridSize (lit 2))) y)) in
  if sqrt_lt dist2 radius then
    let '(r3, s) := random rnd s in
    let '(r4, s) := random rnd s in
    set_squares s
      (squares s ++
       [mkSquare gridX gridY (add (mul r3 (lit 0.5)) (lit 0.2)) (lit 1)
                 (add (mul r4 (lit 0.03)) (lit 0.01))])
  else s.

(** [if (isHovering.current) { if (Math.random() < 0.4) { ... } }]. *)
Definition spawnIfHovering (rnd : nat -> N) (s : State N) : State N :=
  if isHovering s then
    let '(r0, s) := random rnd s in
    if ltb r0 (lit 0.4) then spawn rnd s else s
  else s.

(** The loop [for (let i = squares.current.length - 1; i >= 0; i--)], with
    [n = i + 1] iterations left.  Reading [squares.current[i]] past the end
    gives [undefined], whose [.life] is a [TypeError]: [None]. *)
Fixpoint updateAndDraw (n : nat) (sqs : list (Square N)) (ops : list (DrawOp N))
  : option (list (Square N) * list (DrawOp N)) :=
  match n with
  | O => Some (sqs, ops)
  | S i =>
      match sqs !! i with
      | None => None
      | Some sq =>
          let sq := mkSquare (x sq) (y sq) (opacity sq)
                             (sub (life sq) (decay sq)) (decay sq) in
          if leb (life sq) (lit 0) then
            updateAndDraw i (delete i sqs) ops
          else
            let currentOpacity := mul (opacity sq) (life sq) in
            updateAndDraw i (<[i := sq]> sqs)
              (ops ++ [fillRect 255 255 255 currentOpacity
                                (x sq) (y sq) gridSize gridSize])
      end
  end.

(** One call of [render]: the new state and the calls made on the context.
    The guard [if (!canvas || !ctx) return] cannot fire: the effect defines
    [render] only after both were found.  [requestAnimationFrame(render)] is
    the next [AnimationFrame] event. *)
Definition render (rnd : nat -> N) (s : State N)
  : option (State N * list (DrawOp N)) :=
  let ops := [clearRect (lit 0) (lit 0) (width (canvas s)) (height (canvas s))] in
  let s := spawnIfHovering rnd s in
  match updateAndDraw (length (squares s)) (squares s) ops with
  | Some (sqs, ops) => Some (set_squares s sqs, ops)
  | None => None
  end.

(** The effect (lines 278-358): nothing is set up without a canvas and a 2D
    context; otherwise the canvas is sized and [render] runs once. *)
Definition mount (rnd : nat -> N) (cv : option (Canvas N)) (ctx : bool)
    (c : option (Container N)) : option (State N * list (DrawOp N)) :=
  match cv with
  | None => None
  | Some cv => if ctx then render rnd (resizeCanvas (initial cv c)) else None
  end.

(** One event, with what it draws. *)
Definition step (rnd : nat -> N) (e : Event N) (s : State N)
  : option (State N * list (DrawOp N)) :=
  match e with
  | MouseMove clientX clientY => Some (handleMouseMove clientX clientY s, [])
  | MouseEnter => Some (handleMouseEnter s, [])
  | MouseLeave => Some (handleMouseLeave s, [])
  | WindowResize => Some (resizeCanvas s, [])
  | AnimationFrame => render rnd s
  | Layout c => Some (set_containerRef s c, [])
  end.

(** A sequence of events, with everything drawn on the way. *)
Fixpoint run (rnd : nat -> N) (es : list (Event N)) (s : State N)
  : option (State N * list (DrawOp N)) :=
  match es with
  | [] => Some (s, [])
  | e :: es =>
      match step rnd e s with
      | None => None
      | Some (s, ops) =>
          match run rnd es s with
          | None => None
          | Some (s, ops') => Some (s, ops ++ ops')
          end
      end
  end.

(** [<ServiceIcon name={iconName} size={80} />] (line 427). *)
Definition iconSize : Z := 80.

End Component.
End Split.

(** ** The icon resolver

    [ServiceIcon], lines 3-8 of the icon helper. *)

(** The three components imported from the icon set. *)
Inductive IconComponent : Type := Claude | OpenAI | Gemini.

(** The element [<C size={size} />]. *)
Record Element (N : Type) : Type := mkElement {
  component : IconComponent;
  size : N
}.
Arguments mkElement {N}.
Arguments component {N}.
Arguments size {N}.

(** [null] is [None]. *)
Definition ServiceIcon {N : Type} (name : string) (size : N) : option (Element N) :=
  if String.eqb name "Claude" then Some (mkElement Claude size)
  else if String.eqb name "OpenAI" then Some (mkElement OpenAI size)
  else if String.eqb name "Gemini" then Some (mkElement Gemini size)
  else None.

(** ** Vocabulary of the statements *)

Section Vocabulary.
Context {N : Type} {JN : JsNum N}.

(** [sq.life -= sq.decay] *)
Definition age (sq : Square N) : Square N :=
  mkSquare (x sq) (y sq) (opacity sq) (sub (life sq) (decay sq)) (decay sq).

(** [sq.life <= 0] *)
Definition expired (sq : Square N) : bool := leb (life sq) (lit 0).

(** The squares that outlive one frame, aged. *)
Definition advance (l : list (Square N)) : list (Square N) :=
  List.filter (fun sq => negb (expired sq)) (map age l).

(** The [fillRect] of a square that is drawn. *)
Definition paint (sq : Square N) : DrawOp N :=
  fillRect 255 255 255 (mul (opacity sq) (life sq)) (x sq) (y sq)
           Centered.gridSize Centered.gridSize.

(** No [MouseEnter] among the events. *)
Definition noEnter (es : list (Event N)) : bool :=
  forallb (fun e => match e with MouseEnter => false | _ => true end) es.

(** The number of animation frames among the events. *)
Definition frames (es : list (Event N)) : nat :=
  length (List.filter (fun e => match e with AnimationFrame => true | _ => false end) es).

(** [p + (u - 0.5) * radius * 2]: a pointer coordinate moved by the random
    offset drawn from [u]. *)
Definition candidate (p u : N) : N :=
  add p (mul (mul (sub u (lit 0.5)) (lit 200)) (lit 2)).

(** [Math.floor(c / gridSize) * gridSize] *)
Definition snap (c : N) : N :=
  mul (floor (div c Centered.gridSize)) Centered.gridSize.

(** [Math.pow(gridX + gridSize/2 - x, 2) + Math.pow(gridY + gridSize/2 - y, 2)]:
    the squared distance from the centre of the cell at [(gx, gy)] to the
    pointer at [(x, y)]. *)
Definition dist2 (gx gy x y : N) : N :=
  add (pow2 (sub (add gx (div Centered.gridSize (lit 2))) x))
      (pow2 (sub (add gy (div Centered.gridSize (lit 2))) y)).

(** The off-surface position [{ x: -1000, y: -1000 }]. *)
Definition sentinel : Point N := mkPoint (lit (-1000)) (lit (-1000)).

(** The states a mounted component can be in: those a sequence of events
    leads to from the state the hooks create. *)
Definition reachable (rnd : nat -> N) (s : State N) : Prop :=
  exists es cv c ops, Centered.run rnd es (Centered.initial cv c) = Some (s, ops).

(** A 300 x 150 canvas in an 800 x 200 container whose box starts at
    (10, 20), and an oracle whose first value passes the spawn chance and
    whose later values are all one half. *)
Definition demo_canvas : Canvas N := mkCanvas (lit 300) (lit 150).

Definition demo_container : option (Container N) :=
  Some (mkContainer (lit 10) (lit 20) (lit 800) (lit 200)).

Definition demo_draws (k : nat) : N :=
  match k with
  | O => lit 0.1
  | S _ => lit 0.5
  end.

(** The state a run leads to ([s] if it fails, which no run does). *)
Definition state_after (rnd : nat -> N) (es : list (Event N)) (s : State N) : State N :=
  match Centered.run rnd es s with
  | Some (s', _) => s'
  | None => s
  end.

(** The pointer has entered and no move has been seen yet: the hovering flag
    is set and the position is still the sentinel. *)
Definition demo_entered : State N :=
  state_after demo_draws [MouseEnter] (Centered.initial demo_canvas demo_container).

(** The pointer has entered and moved to (100, 100) of the container. *)
Definition demo_hover : State N :=
  state_after demo_draws [MouseEnter; MouseMove (lit 110) (lit 120)]
              (Centered.initial demo_canvas demo_container).

(** One frame later: one square is alive. *)
Definition demo_one_square : State N :=
  state_after demo_draws
              [MouseEnter; MouseMove (lit 110) (lit 120); AnimationFrame]
              (Centered.initial demo_canvas demo_container).

(** The square of scenario 3: [life = 1.0], [decay = 0.05], [opacity = 0.6],
    alone in a collection that is not hovered. *)
Definition scenario3 (gx gy : N) (cv : Canvas N) (c : option (Container N)) : State N :=
  set_squares (Centered.initial cv c)
              [mkSquare gx gy (lit 0.6) (lit 1.0) (lit 0.05)].

End Vocabulary.

(** Binary64 at the ends of the range of [Math.random()]: an oracle whose
    first value is the largest double below 1 and whose later values are one
    half; the pointer at (360, 100) of the container; and the largest decay a
    spawn can sample. *)
Definition edge_draws (k : nat) : float :=
  match k with
  | O => PrimFloat.next_down 1
  | S _ => 0.5%float
  end.

Definition edge_state : State float :=
  Centered.handleMouseMove (lit 370) (lit 120)
    (Centered.initial demo_canvas demo_container).

Definition largest_decay : float :=
  add (mul (PrimFloat.next_down 1) (lit 0.03)) (lit 0.01).

(** Every value of [Math.random()] lies in [0, 1). *)
Definition draws_ok (rnd : nat -> Q) : Prop :=
  forall k, (0 <= rnd k /\ rnd k < 1)%Q.

(** What every square of a reachable state satisfies. *)
Definition square_ok (sq : Square Q) : Prop :=
  (life sq <= 1 /\ 1 # 100 <= decay sq /\ decay sq < 4 # 100 /\
   2 # 10 <= opacity sq /\ opacity sq < 7 # 10)%Q.

(** The invariant of the particle collection. *)
Definition state_ok (s : State Q) : Prop :=
  forall sq, sq ∈ squares s -> square_ok sq.

(** ** The effect and the browser around it

    The effect of lines 60-140 registers [resizeCanvas] on the window, calls
    [render] once, and returns a clean-up; [render] ends with
    [animationFrameId.current = requestAnimationFrame(render)].  The browser
    side is the list of pending frame requests (by handle), the next handle
    it will hand out, and whether the resize listener is registered. *)

Record Mounted (N : Type) : Type := mkMounted {
  comp : State N;
  animationFrameId : nat;
  frameRequests : list nat;
  nextHandle : nat;
  resizeListener : bool;
  attached : bool
}.
Arguments mkMounted {N}.
Arguments comp {N}.
Arguments animationFrameId {N}.
Arguments frameRequests {N}.
Arguments nextHandle {N}.
Arguments resizeListener {N}.
Arguments attached {N}.

Section Lifecycle.
Context {N : Type} {JN : JsNum N}.

(** The element is committed: the hooks of lines 24-31 have run
    ([useRef<number>(0)] for the frame id), the mouse handlers are attached
    and nothing is scheduled.  The first handle is 1 here; the properties of
    the effect stated below do not depend on which handles the browser hands
    out. *)
Definition committed (cv : Canvas N) (c : option (Container N)) : Mounted N :=
  mkMounted (Centered.initial cv c) 0 [] 1 false true.

(** [render] as a frame callback: the drawing of [Centered.render], then
    [animationFrameId.current = requestAnimationFrame(render)] (line 131).
    If [render] throws, the request is never made. *)
Definition renderAndRequest (rnd : nat -> N) (p : Mounted N)
  : option (Mounted N * list (DrawOp N)) :=
  match Centered.render rnd (comp p) with
  | Some (s, ops) =>
      Some (mkMounted s (nextHandle p) (frameRequests p ++ [nextHandle p])
                      (S (nextHandle p)) (resizeListener p) (attached p),
            ops)
  | None => None
  end.

(** The body of the effect (lines 61-134): it returns early, registering
    nothing, without a canvas or without a 2D context. *)
Definition effectSetup (rnd : nat -> N) (hasCanvas hasCtx : bool) (p : Mounted N)
  : option (Mounted N * list (DrawOp N)) :=
  if hasCanvas then
    if hasCtx then
      renderAndRequest rnd
        (mkMounted (Centered.resizeCanvas (comp p)) (animationFrameId p)
                   (frameRequests p) (nextHandle p) true (attached p))
    else Some (p, [])
  else Some (p, []).

(** The clean-up (lines 136-139), followed by React detaching the element
    and clearing [containerRef].  After an early return there is no clean-up
    to run; running this one then changes nothing the effect had set. *)
Definition effectCleanup (p : Mounted N) : Mounted N :=
  mkMounted (set_containerRef (comp p) None) (animationFrameId p)
            (List.filter (fun h => negb (Nat.eqb h (animationFrameId p)))
                         (frameRequests p))
            (nextHandle p) false false.

(** The browser runs the callbacks of the given requests, in order. *)
Fixpoint runCallbacks (rnd : nat -> N) (handles : list nat) (p : Mounted N)
  : option (Mounted N * list (DrawOp N)) :=
  match handles with
  | [] => Some (p, [])
  | _ :: handles =>
      match renderAndRequest rnd p with
      | None => None
      | Some (p, ops) =>
          match runCallbacks rnd handles p with
          | None => None
          | Some (p, ops') => Some (p, ops ++ ops')
          end
      end
  end.

(** What the browser does with an event: mouse events reach the handlers
    while the element is attached, a resize reaches [resizeCanvas] while it is
    registered, a frame runs the requests that were pending when it began. *)
Definition browserStep (rnd : nat -> N) (e : Event N) (p : Mounted N)
  : option (Mounted N * list (DrawOp N)) :=
  let with_comp s :=
    mkMounted s (animationFrameId p) (frameRequests p) (nextHandle p)
              (resizeListener p) (attached p) in
  match e with
  | MouseMove clientX clientY =>
      Some (if attached p
            then with_comp (Centered.handleMouseMove clientX clientY (comp p))
            else p, [])
  | MouseEnter =>
      Some (if attached p then with_comp (Centered.handleMouseEnter (comp p)) else p, [])
  | MouseLeave =>
      Some (if attached p then with_comp (Centered.handleMouseLeave (comp p)) else p, [])
  | WindowResize =>
      Some (if resizeListener p then with_comp (Centered.resizeCanvas (comp p)) else p, [])
  | AnimationFrame =>
      runCallbacks rnd (frameRequests p)
        (mkMounted (comp p) (animationFrameId p) [] (nextHandle p)
                   (resizeListener p) (attached p))
  | Layout c =>
      Some (if attached p then with_comp (set_containerRef (comp p) c) else p, [])
  end.

Fixpoint browserRun (rnd : nat -> N) (es : list (Event N)) (p : Mounted N)
  : option (Mounted N * list (DrawOp N)) :=
  match es with
  | [] => Some (p, [])
  | e :: es =>
      match browserStep rnd e p with
      | None => None
      | Some (p, ops) =>
          match browserRun rnd es p with
          | None => None
          | Some (p, ops') => Some (p, ops ++ ops')
          end
      end
  end.

(** While the effect is active exactly one frame request is pending, it is
    the one [animationFrameId] holds, and the listener is registered. *)
Definition active (p : Mounted N) : Prop :=
  frameRequests p = [animationFrameId p] /\ resizeListener p = true /\
  attached p = true /\ nextHandle p = S (animationFrameId p).

(** The dark overlay of variant 2: [opacity: (1 - opacity) * 0.7]
    (line 421). *)
Definition overlayOpacity (s : State N) : N :=
  mul (sub (lit 1) (opacityState s)) (lit 0.7).

End Lifecycle.

(** ** The element and its content *)

(** A string prop is truthy when it is given and not empty. *)
Definition truthy (v : option string) : bool :=
  match v with
  | Some s => negb (String.eqb s "")
  | None => false
  end.

Inductive Tag : Type := tag_a | tag_div.

(** [const Component = href ? 'a' : 'div'] (lines 143 and 361). *)
Definition Component (href : option string) : Tag :=
  if truthy href then tag_a else tag_div.

(** The object [props] (lines 144-146 and 362-364); [H] is the type of
    click handlers. *)
Record Props (H : Type) : Type := mkProps {
  props_href : option string;
  props_target : option string;
  props_rel : option string;
  props_onClick : option H
}.
Arguments mkProps {H}.
Arguments props_href {H}.
Arguments props_target {H}.
Arguments props_rel {H}.
Arguments props_onClick {H}.

Definition props {H : Type} (href : option string) (onClick : option H) : Props H :=
  if truthy href
  then mkProps href (Some "_blank"%string) (Some "noopener noreferrer"%string) None
  else mkProps None None None onClick.

(** [${bgColorClass || 'bg-neutral-950'}] (lines 156 and 374). *)
Definition backgroundClass (bgColorClass : option string) : string :=
  match bgColorClass with
  | Some s => if String.eqb s "" then "bg-neutral-950"%string else s
  | None => "bg-neutral-950"%string
  end.

(** [{iconName && (<div ...><ServiceIcon name={iconName} size={...} /></div>)}]
    (lines 202-206 and 425-429): [None] when nothing is rendered, [Some o]
    for the wrapper with what [ServiceIcon] returned inside. *)
Definition iconSlot {N : Type} (sz : N) (iconName : option string)
  : option (option (Element N)) :=
  match iconName with
  | Some name => if String.eqb name "" then None else Some (ServiceIcon name sz)
  | None => None
  end.

(** ** Invariants of the exact model *)

(** Both coordinates are integer multiples of the cell size. *)
Definition on_grid (sq : Square Q) : Prop :=
  exists i j : Z, x sq = (inject_Z i * 40)%Q /\ y sq = (inject_Z j * 40)%Q.

(** The square has been aged at least once and is alive. *)
Definition settled (sq : Square Q) : Prop :=
  (0 < life sq /\ life sq <= 1 - decay sq)%Q.

(** In a list of squares, newest first, the [i]-th has been aged at least
    [k + i] times by at least one hundredth each. *)
Fixpoint aged_from (k : nat) (l : list (Square Q)) : Prop :=
  match l with
  | [] => True
  | sq :: l => (life sq <= 1 - inject_Z (Z.of_nat k) * (1 # 100))%Q /\ aged_from (S k) l
  end.

(** The invariant of reachable states, beyond [state_ok]. *)
Definition collection_ok (s : State Q) : Prop :=
  (forall sq, sq ∈ squares s -> square_ok sq /\ settled sq /\ on_grid sq) /\
  aged_from 1 (rev (squares s)).

(** ** The advance-and-cull loop as a map and a filter *)

Section Loop.
Context {N : Type} {JN : JsNum N}.

Lemma advance_app (l1 l2 : list (Square N)) :
  advance (l1 ++ l2) = advance l1 ++ advance l2.
Proof. unfold advance. by rewrite map_app, List.filter_app. Qed.

Lemma advance_cons (sq : Square N) (l : list (Square N)) :
  advance (sq :: l) =
  (if expired (age sq) then [] else [age sq]) ++ advance l.
Proof. unfold advance. simpl. by destruct (expired (age sq)). Qed.

Lemma elem_of_advance (sq : Square N) (l : list (Square N)) :
  sq ∈ advance l ↔ ∃ sq0, sq0 ∈ l ∧ sq = age sq0 ∧ expired sq = false.
Proof.
  unfold advance. rewrite list_elem_of_In, List.filter_In, <- list_elem_of_In.
  rewrite list_elem_of_fmap, negb_true_iff. split.
  - intros [(sq0 & -> & Hin) E]. by exists sq0.
  - intros (sq0 & Hin & -> & E). split; [by exists sq0 | done].
Qed.

Lemma length_advance (l : list (Square N)) : length (advance l) ≤ length l.
Proof.
  unfold advance. etrans; [apply List.filter_length_le|]. by rewrite length_map.
Qed.

(** One iteration of the loop, at index [i]. *)
Lemma updateAndDraw_S (i : nat) (sqs : list (Square N)) (ops : list (DrawOp N)) :
  Centered.updateAndDraw (S i) sqs ops =
  match sqs !! i with
  | None => None
  | Some sq =>
      if expired (age sq) then Centered.updateAndDraw i (delete i sqs) ops
      else Centered.updateAndDraw i (<[i := age sq]> sqs) (ops ++ [paint (age sq)])
  end.
Proof. reflexivity. Qed.

(** The loop run over the last [length pre] indices of [pre ++ suf] never
    reads past the end, replaces [pre] by its survivors, and paints them from
    the last to the first. *)
Lemma updateAndDraw_app (pre suf : list (Square N)) (ops : list (DrawOp N)) :
  Centered.updateAndDraw (length pre) (pre ++ suf) ops =
  Some (advance pre ++ suf, ops ++ map paint (rev (advance pre))).
Proof.
  revert suf ops. induction pre as [|sq pre IH] using rev_ind; intros suf ops.
  - simpl. by rewrite app_nil_r.
  - rewrite length_app, Nat.add_1_r, updateAndDraw_S.
    rewrite <- app_assoc. simpl. rewrite list_lookup_middle by done.
    rewrite advance_app, advance_cons.
    destruct (expired (age sq)) eqn:E.
    + rewrite delete_middle, IH. simpl. by rewrite !app_nil_r.
    + rewrite insert_app_r_alt, Nat.sub_diag by done. simpl. rewrite IH. simpl.
      rewrite rev_app_distr. simpl. rewrite <- !app_assoc. simpl. done.
Qed.

Lemma updateAndDraw_all (l : list (Square N)) (ops : list (DrawOp N)) :
  Centered.updateAndDraw (length l) l ops =
  Some (advance l, ops ++ map paint (rev (advance l))).
Proof.
  pose proof (updateAndDraw_app l [] ops) as E. by rewrite !app_nil_r in E.
Qed.

(** [render] never fails: it spawns, then advances and paints. *)
Lemma render_eq (rnd : nat -> N) (s : State N) :
  Centered.render rnd s =
  let s1 := Centered.spawnIfHovering rnd s in
  Some (set_squares s1 (advance (squares s1)),
        clearRect (lit 0) (lit 0) (width (canvas s)) (height (canvas s))
        :: map paint (rev (advance (squares s1)))).
Proof. unfold Centered.render. by rewrite updateAndDraw_all. Qed.

End Loop.

(** ** The two variants compared *)

Section Variants.
Context {N : Type} {JN : JsNum N}.

Lemma Split_updateAndDraw (n : nat) (sqs : list (Square N)) (ops : list (DrawOp N)) :
  Split.updateAndDraw n sqs ops = Centered.updateAndDraw n sqs ops.
Proof.
  revert sqs ops. induction n as [|i IH]; intros sqs ops; simpl; [done|].
  destruct (sqs !! i) as [sq|]; [|done].
  destruct (leb (sub (life sq) (decay sq)) (lit 0)); apply IH.
Qed.

Lemma Split_spawn (rnd : nat -> N) (s : State N) :
  Split.spawn rnd s = Centered.spawn rnd s.
Proof. reflexivity. Qed.

Lemma Split_render (rnd : nat -> N) (s : State N) :
  Split.render rnd s = Centered.render rnd s.
Proof.
  unfold Split.render, Centered.render. by rewrite Split_updateAndDraw.
Qed.

Lemma Split_step (rnd : nat -> N) (e : Event N) (s : State N) :
  Split.step rnd e s = Centered.step rnd e s.
Proof. destruct e; simpl; first [apply Split_render | done]. Qed.

Lemma Split_run (rnd : nat -> N) (es : list (Event N)) (s : State N) :
  Split.run rnd es s = Centered.run rnd es s.
Proof.
  revert s. induction es as [|e es IH]; intros s; simpl; [done|].
  rewrite Split_step. destruct (Centered.step rnd e s) as [[s1 ops]|]; [|done].
  by rewrite IH.
Qed.

End Variants.

(** ** Runs of the component *)

Section Runs.
Context {N : Type} {JN : JsNum N}.

Lemma spawnIfHovering_idle (rnd : nat -> N) (s : State N) :
  isHovering s = false -> Centered.spawnIfHovering rnd s = s.
Proof. unfold Centered.spawnIfHovering. by intros ->. Qed.

Lemma render_idle (rnd : nat -> N) (s : State N) :
  isHovering s = false ->
  Centered.render rnd s =
  Some (set_squares s (advance (squares s)),
        clearRect (lit 0) (lit 0) (width (canvas s)) (height (canvas s))
        :: map paint (rev (advance (squares s)))).
Proof. intros Hh. rewrite render_eq. simpl. by rewrite spawnIfHovering_idle. Qed.

(** [spawn] and [spawnIfHovering] only append to the collection and only
    advance the oracle. *)
Lemma spawn_frame (rnd : nat -> N) (s : State N) :
  let s' := Centered.spawn rnd s in
  position s' = position s /\ opacityState s' = opacityState s /\
  mousePos s' = mousePos s /\ isHovering s' = isHovering s /\
  canvas s' = canvas s /\ containerRef s' = containerRef s.
Proof.
  unfold Centered.spawn. simpl.
  match goal with |- context [if ?b then _ else _] => destruct b end; simpl; auto 10.
Qed.

Lemma spawnIfHovering_frame (rnd : nat -> N) (s : State N) :
  let s' := Centered.spawnIfHovering rnd s in
  position s' = position s /\ opacityState s' = opacityState s /\
  mousePos s' = mousePos s /\ isHovering s' = isHovering s /\
  canvas s' = canvas s /\ containerRef s' = containerRef s.
Proof.
  unfold Centered.spawnIfHovering. destruct (isHovering s) eqn:Hh; [|by rewrite Hh].
  simpl. match goal with |- context [if ?b then _ else _] => destruct b end.
  - match goal with |- context [Centered.spawn rnd ?s0] =>
      pose proof (spawn_frame rnd s0) as F end.
    simpl in F. destruct F as (-> & -> & -> & -> & -> & ->). simpl. auto 10.
  - simpl. auto 10.
Qed.

(** Every run succeeds: no event handler and no frame can fail. *)
Lemma step_total (rnd : nat -> N) (e : Event N) (s : State N) :
  is_Some (Centered.step rnd e s).
Proof. destruct e; simpl; try done. rewrite render_eq. done. Qed.

Lemma run_total (rnd : nat -> N) (es : list (Event N)) (s : State N) :
  is_Some (Centered.run rnd es s).
Proof.
  revert s. induction es as [|e es IH]; intros s; simpl; [done|].
  destruct (step_total rnd e s) as [[s1 ops] ->].
  destruct (IH s1) as [[s2 ops'] ->]. done.
Qed.

Lemma run_app (rnd : nat -> N) (es1 es2 : list (Event N)) (s : State N) :
  Centered.run rnd (es1 ++ es2) s =
  match Centered.run rnd es1 s with
  | Some (s1, ops1) =>
      match Centered.run rnd es2 s1 with
      | Some (s2, ops2) => Some (s2, ops1 ++ ops2)
      | None => None
      end
  | None => None
  end.
Proof.
  revert s. induction es1 as [|e es1 IH]; intros s; simpl.
  - by destruct (Centered.run rnd es2 s) as [[s2 ops2]|].
  - destruct (Centered.step rnd e s) as [[s1 ops]|]; [|done].
    rewrite IH. destruct (Centered.run rnd es1 s1) as [[s2 ops1]|]; [|done].
    destruct (Centered.run rnd es2 s2) as [[s3 ops2]|]; [|done].
    by rewrite app_assoc.
Qed.

(** Mounting is a resize followed by a first frame. *)
Lemma mount_as_run (rnd : nat -> N) (cv : Canvas N) (c : option (Container N)) :
  Centered.mount rnd (Some cv) true c =
  Centered.run rnd [WindowResize; AnimationFrame] (Centered.initial cv c).
Proof.
  unfold Centered.mount. simpl.
  destruct (Centered.render rnd (Centered.resizeCanvas (Centered.initial cv c)))
    as [[s ops]|]; [|done].
  by rewrite app_nil_r.
Qed.

(** While the hovering flag stays false, a run only ages and culls: it makes
    no call of [Math.random()] and the collection is the initial one advanced
    once per frame. *)
Lemma run_idle (rnd : nat -> N) (es : list (Event N)) (s : State N) :
  noEnter es = true -> isHovering s = false ->
  exists s' ops,
    Centered.run rnd es s = Some (s', ops) /\
    isHovering s' = false /\
    randomCalls s' = randomCalls s /\
    squares s' = Nat.iter (frames es) advance (squares s).
Proof.
  revert s. induction es as [|e es IH]; intros s Hne Hh.
  - exists s, []. done.
  - simpl in Hne. apply andb_true_iff in Hne as [He Hne].
    assert (exists s1 ops1, Centered.step rnd e s = Some (s1, ops1) /\
              isHovering s1 = false /\ randomCalls s1 = randomCalls s /\
              squares s1 = Nat.iter (frames [e]) advance (squares s))
      as (s1 & ops1 & E1 & Hh1 & Hr1 & Hs1).
    { destruct e; simpl; try discriminate He.
      - eexists _, _; split; [done|]. unfold Centered.handleMouseMove.
        by destruct (containerRef s).
      - by eexists _, _.
      - eexists _, _; split; [done|]. unfold Centered.resizeCanvas.
        by destruct (containerRef s).
      - rewrite render_idle by done. by eexists _, _.
      - by eexists _, _. }
    destruct (IH s1 Hne Hh1) as (s2 & ops2 & E2 & Hh2 & Hr2 & Hs2).
    exists s2, (ops1 ++ ops2). simpl. rewrite E1, E2. split; [done|].
    split; [done|]. split; [congruence|].
    rewrite Hs2, Hs1. clear. unfold frames.
    destruct e; simpl; try done. apply Nat.iter_swap.
Qed.

End Runs.

(** ** Claims that hold for every number representation *)

Section Generic.
Context {N : Type} {JN : JsNum N}.

Lemma length_iter_advance (n : nat) (l : list (Square N)) :
  length (Nat.iter n advance l) ≤ length l.
Proof.
  induction n as [|n IH]; simpl; [done|].
  etrans; [apply length_advance | done].
Qed.

Lemma iter_advance_nil (n : nat) : Nat.iter n advance ([] : list (Square N)) = [].
Proof. induction n as [|n IH]; simpl; [done|]. by rewrite IH. Qed.

Lemma resizeCanvas_idem (s : State N) :
  Centered.resizeCanvas (Centered.resizeCanvas s) = Centered.resizeCanvas s.
Proof.
  unfold Centered.resizeCanvas. destruct (containerRef s) as [c|] eqn:E.
  - simpl. by rewrite E.
  - by rewrite E.
Qed.

Lemma iter_resizeCanvas (n : nat) (s : State N) :
  Nat.iter (S n) Centered.resizeCanvas s = Centered.resizeCanvas s.
Proof.
  induction n as [|n IH]; [done|].
  change (Centered.resizeCanvas (Nat.iter (S n) Centered.resizeCanvas s) =
          Centered.resizeCanvas s).
  rewrite IH. apply resizeCanvas_idem.
Qed.

Lemma run_resizes (rnd : nat -> N) (n : nat) (s : State N) :
  Centered.run rnd (replicate n WindowResize) s =
  Some (Nat.iter n Centered.resizeCanvas s, []).
Proof.
  revert s. induction n as [|n IH]; intros s; [done|].
  simpl. rewrite IH. by rewrite Nat.iter_swap.
Qed.

(** C4: a tick run while the hovering flag is false adds no particle: it
    makes no call of [Math.random()] and leaves exactly the aged survivors of
    the collection; from mount, any sequence of events without a pointer-enter
    keeps the collection empty; and after a pointer-leave, until a
    pointer-enter, the collection is only advanced, once per frame, never
    extended. *)
Theorem C4_no_spawn_while_not_hovering
    (rnd : nat -> N) (es : list (Event N)) (s : State N)
    (cv : Canvas N) (c : option (Container N)) :
  noEnter es = true ->
  (isHovering s = false ->
   exists ops,
     Centered.render rnd s = Some (set_squares s (advance (squares s)), ops) /\
     length (advance (squares s)) ≤ length (squares s)) /\
  (exists s0 ops0 s1 ops1,
     Centered.mount rnd (Some cv) true c = Some (s0, ops0) /\
     Centered.run rnd es s0 = Some (s1, ops1) /\
     squares s0 = [] /\ squares s1 = [] /\ randomCalls s1 = 0) /\
  (isHovering (Centered.handleMouseLeave s) = false /\
   mousePos (Centered.handleMouseLeave s) = sentinel /\
   squares (Centered.handleMouseLeave s) = squares s) /\
  (exists s1 ops1,
     Centered.run rnd (MouseLeave :: es) s = Some (s1, ops1) /\
     isHovering s1 = false /\
     randomCalls s1 = randomCalls s /\
     squares s1 = Nat.iter (frames es) advance (squares s) /\
     length (squares s1) ≤ length (squares s)).
Proof.
  intros Hne. split; [|split; [|split; [done|]]].
  - intros Hh. rewrite render_idle by done. eexists. split; [done|].
    apply length_advance.
  - unfold Centered.mount.
    set (s00 := Centered.resizeCanvas (Centered.initial cv c)).
    assert (isHovering s00 = false /\ squares s00 = [] /\ randomCalls s00 = 0)
      as (Hh & Hs & Hr).
    { unfold s00, Centered.resizeCanvas. by destruct c. }
    rewrite render_idle by done. rewrite Hs. simpl.
    destruct (run_idle rnd es (set_squares s00 []) Hne Hh)
      as (s1 & ops1 & E & _ & Hr1 & Hs1).
    eexists _, _, s1, ops1. split; [done|]. split; [done|]. split; [done|].
    split; [|by rewrite Hr1]. rewrite Hs1. apply iter_advance_nil.
  - destruct (run_idle rnd es (Centered.handleMouseLeave s) Hne eq_refl)
      as (s1 & ops1 & E & Hh & Hr1 & Hs1).
    exists s1, ops1. simpl. rewrite E. split; [done|]. split; [done|].
    split; [done|]. split; [done|]. rewrite Hs1. apply length_iter_advance.
Qed.

(** C7: a window resize sets the canvas width and height to the container's
    layout box and changes nothing else: the particle collection (count,
    coordinates, opacity, life, decay), the pointer state and the oracle are
    as before, nothing is drawn, and any number of resizes in a row has the
    effect of one. *)
Theorem C7_resize_changes_only_canvas
    (rnd : nat -> N) (n : nat) (s : State N) :
  squares (Centered.resizeCanvas s) = squares s /\
  mousePos (Centered.resizeCanvas s) = mousePos s /\
  isHovering (Centered.resizeCanvas s) = isHovering s /\
  position (Centered.resizeCanvas s) = position s /\
  opacityState (Centered.resizeCanvas s) = opacityState s /\
  containerRef (Centered.resizeCanvas s) = containerRef s /\
  randomCalls (Centered.resizeCanvas s) = randomCalls s /\
  canvas (Centered.resizeCanvas s) =
    match containerRef s with
    | Some c => mkCanvas (offsetWidth c) (offsetHeight c)
    | None => canvas s
    end /\
  Centered.step rnd WindowResize s = Some (Centered.resizeCanvas s, []) /\
  Centered.run rnd (replicate (S n) WindowResize) s =
    Some (Centered.resizeCanvas s, []).
Proof.
  rewrite run_resizes, iter_resizeCanvas.
  simpl. unfold Centered.resizeCanvas.
  destruct (containerRef s) as [c|] eqn:E; simpl; rewrite ?E; repeat split; reflexivity.
Qed.

(** C8: the two layout variants have the same hooks, the same mouse handlers,
    the same resize, the same render function (same spawns, same
    advance-and-cull, same painted alphas) and hence the same runs on the same
    events and the same random draws; they differ in presentation, as in the
    size of the icon they show. *)
Theorem C8_variants_share_logic
    (rnd : nat -> N) (es : list (Event N)) (s : State N)
    (clientX clientY : N) (cv : Canvas N) (c : option (Container N)) (ctx : bool) :
  Split.initial cv c = Centered.initial cv c /\
  Split.handleMouseMove clientX clientY s = Centered.handleMouseMove clientX clientY s /\
  Split.handleMouseEnter s = Centered.handleMouseEnter s /\
  Split.handleMouseLeave s = Centered.handleMouseLeave s /\
  Split.resizeCanvas s = Centered.resizeCanvas s /\
  Split.render rnd s = Centered.render rnd s /\
  Split.mount rnd (Some cv) ctx c = Centered.mount rnd (Some cv) ctx c /\
  Split.run rnd es s = Centered.run rnd es s /\
  Split.iconSize = 80%Z /\ Centered.iconSize = 64%Z.
Proof.
  do 5 (split; [reflexivity|]).
  split; [apply Split_render|].
  split; [unfold Split.mount, Centered.mount; destruct ctx; [apply Split_render|done]|].
  split; [apply Split_run|]. done.
Qed.

(** C9: the icon resolver returns the icon of each of the three supported
    identifiers at the requested size, and [null] for every other identifier;
    it is defined on every identifier and never fails. *)
Theorem C9_ServiceIcon_total (name : string) (sz : N) :
  ServiceIcon "Claude" sz = Some (mkElement Claude sz) /\
  ServiceIcon "OpenAI" sz = Some (mkElement OpenAI sz) /\
  ServiceIcon "Gemini" sz = Some (mkElement Gemini sz) /\
  (ServiceIcon name sz = None <->
   name <> "Claude"%string /\ name <> "OpenAI"%string /\ name <> "Gemini"%string) /\
  (forall e, ServiceIcon name sz = Some e <->
     size e = sz /\
     (name, component e) ∈ [("Claude"%string, Claude); ("OpenAI"%string, OpenAI);
                            ("Gemini"%string, Gemini)]).
Proof.
  split; [done|]. split; [done|]. split; [done|].
  unfold ServiceIcon.
  destruct (String.eqb_spec name "Claude") as [->|H1].
  { split; [split; [done|intros (? & _); done]|].
    intros [cmp sz']; simpl. rewrite !elem_of_cons, elem_of_nil. split.
    - intros [= <- <-]. auto.
    - intros (-> & [[= <-]|[[=]|[[=]|[]]]]). done. }
  destruct (String.eqb_spec name "OpenAI") as [->|H2].
  { split; [split; [done|intros (_ & ? & _); done]|].
    intros [cmp sz']; simpl. rewrite !elem_of_cons, elem_of_nil. split.
    - intros [= <- <-]. auto.
    - intros (-> & [[=]|[[= <-]|[[=]|[]]]]). done. }
  destruct (String.eqb_spec name "Gemini") as [->|H3].
  { split; [split; [done|intros (_ & _ & ?); done]|].
    intros [cmp sz']; simpl. rewrite !elem_of_cons, elem_of_nil. split.
    - intros [= <- <-]. auto.
    - intros (-> & [[=]|[[=]|[[= <-]|[]]]]). done. }
  split; [done|].
  intros [cmp sz']; simpl. rewrite !elem_of_cons, elem_of_nil. split; [done|].
  intros (_ & [[= -> _]|[[= -> _]|[[= -> _]|[]]]]); done.
Qed.

End Generic.

(** ** One spawn attempt, spelled out *)

Section Spawn.
Context {N : Type} {JN : JsNum N}.

Lemma spawn_eq (rnd : nat -> N) (s : State N) :
  Centered.spawn rnd s =
  let k := randomCalls s in
  let gx := snap (candidate (px (mousePos s)) (rnd k)) in
  let gy := snap (candidate (py (mousePos s)) (rnd (S k))) in
  if sqrt_lt (dist2 gx gy (px (mousePos s)) (py (mousePos s))) (lit 200) then
    mkState (position s) (opacityState s) (mousePos s) (isHovering s)
      (squares s ++
       [mkSquare gx gy (add (mul (rnd (S (S k))) (lit 0.5)) (lit 0.2)) (lit 1)
                 (add (mul (rnd (S (S (S k)))) (lit 0.03)) (lit 0.01))])
      (canvas s) (containerRef s) (S (S (S (S k))))
  else
    mkState (position s) (opacityState s) (mousePos s) (isHovering s)
      (squares s) (canvas s) (containerRef s) (S (S k)).
Proof.
  reflexivity.
Qed.

End Spawn.

(** ** Exact arithmetic *)

(** Unfolds the operations of [JsNum] at the instance [Q]. *)
Ltac js_Q := cbn [lit add sub mul div floor pow2 sqrt_lt ltb leb Q_JsNum] in *.

Section Exact.
Local Open Scope Q_scope.

Lemma Qle_bool_false (a b : Q) : Qle_bool a b = false <-> b < a.
Proof.
  rewrite <- not_true_iff_false, Qle_bool_iff. split.
  - apply Qnot_le_lt.
  - apply Qlt_not_le.
Qed.

Lemma Q_lt_true (a b : Q) : Q_lt a b = true <-> a < b.
Proof. unfold Q_lt. rewrite negb_true_iff. apply Qle_bool_false. Qed.

Lemma Q_sqrt_lt_true (a b : Q) :
  Q_sqrt_lt a b = true <-> 0 <= a /\ 0 < b /\ a < b * b.
Proof.
  unfold Q_sqrt_lt. rewrite !andb_true_iff, !negb_true_iff.
  rewrite Qle_bool_iff, !Qle_bool_false. tauto.
Qed.

Lemma candidate_eq (p u : Q) : candidate p u == p - 200 + 400 * u.
Proof. unfold candidate. js_Q. ring. Qed.

Lemma candidate_range (p u : Q) :
  0 <= u /\ u < 1 -> p - 200 <= candidate p u /\ candidate p u < p + 200.
Proof. intros [H0 H1]. rewrite candidate_eq. split; lra. Qed.

Lemma snap_eq (c : Q) : snap c = inject_Z (Qfloor (c / 40)) * 40.
Proof. reflexivity. Qed.

Lemma snap_bounds (c : Q) : snap c <= c /\ c < snap c + 40.
Proof.
  rewrite snap_eq.
  pose proof (Qfloor_le (c / 40)) as Hl. pose proof (Qlt_floor (c / 40)) as Hu.
  assert (E : c == c / 40 * 40) by (field; discriminate).
  rewrite inject_Z_plus in Hu. change (inject_Z 1) with 1 in Hu.
  set (f := inject_Z (Qfloor (c / 40))) in *. set (d := c / 40) in *.
  split; lra.
Qed.

Lemma dist2_eq (gx gy px0 py0 : Q) :
  dist2 gx gy px0 py0 == (gx + 20 - px0) ^ 2 + (gy + 20 - py0) ^ 2.
Proof. unfold dist2, Centered.gridSize. js_Q. simpl. field. Qed.

Lemma dist2_nonneg (gx gy px0 py0 : Q) : 0 <= dist2 gx gy px0 py0.
Proof.
  rewrite dist2_eq. simpl.
  set (a := gx + 20 - px0). set (b := gy + 20 - py0). nra.
Qed.

(** The acceptance test [dist < radius] of the exact model is the comparison
    of the squared distance with [radius] squared. *)
Lemma accept_iff (gx gy px0 py0 : Q) :
  sqrt_lt (dist2 gx gy px0 py0) (lit 200) = true <->
  (gx + 20 - px0) ^ 2 + (gy + 20 - py0) ^ 2 < 200 ^ 2.
Proof.
  js_Q. rewrite Q_sqrt_lt_true, <- dist2_eq.
  pose proof (dist2_nonneg gx gy px0 py0).
  change (200 ^ 2) with (200 * 200). split.
  - intros (_ & _ & ?). done.
  - intros ?. split; [done|]. split; [reflexivity|done].
Qed.

(** In the exact model the test decides the comparison of the real square
    root with the bound. *)
Lemma Q_sqrt_lt_real (a b : Q) :
  0 <= a -> Q_sqrt_lt a b = true <-> (R_sqrt.sqrt (Q2R a) < Q2R b)%R.
Proof.
  intros Ha. rewrite Q_sqrt_lt_true.
  assert (Ha' : (0 <= Q2R a)%R).
  { rewrite <- RMicromega.Q2R_0. by apply Qle_Rle. }
  split.
  - intros (_ & Hb & Hab).
    apply Qlt_Rlt in Hb, Hab. rewrite RMicromega.Q2R_0 in Hb. rewrite Q2R_mult in Hab.
    rewrite <- (sqrt_square (Q2R b)) by (by apply Rlt_le).
    by apply sqrt_lt_1_alt.
  - intros Hlt. pose proof (sqrt_pos (Q2R a)) as Hs.
    assert (Hb : (0 < Q2R b)%R) by (eapply Rle_lt_trans; done).
    split; [done|]. split.
    + apply Rlt_Qlt. by rewrite RMicromega.Q2R_0.
    + apply Rlt_Qlt. rewrite Q2R_mult, <- (sqrt_sqrt (Q2R a)) by done.
      by apply Rmult_le_0_lt_compat.
Qed.

(** *** The invariant of the collection *)

Lemma spawned_ok (u v gx gy : Q) :
  0 <= u /\ u < 1 -> 0 <= v /\ v < 1 ->
  square_ok (mkSquare gx gy (add (mul u (lit 0.5)) (lit 0.2)) (lit 1)
                      (add (mul v (lit 0.03)) (lit 0.01))).
Proof. intros [? ?] [? ?]. unfold square_ok. js_Q. simpl. repeat split; lra. Qed.

Lemma spawn_squares (rnd : nat -> Q) (s : State Q) :
  squares (Centered.spawn rnd s) = squares s \/
  exists gx gy,
    squares (Centered.spawn rnd s) =
    squares s ++
    [mkSquare gx gy (add (mul (rnd (S (S (randomCalls s)))) (lit 0.5)) (lit 0.2))
              (lit 1)
              (add (mul (rnd (S (S (S (randomCalls s))))) (lit 0.03)) (lit 0.01))].
Proof.
  rewrite spawn_eq. cbv zeta.
  match goal with |- context [if ?b then _ else _] => destruct b end; simpl.
  - right. eauto.
  - by left.
Qed.

Lemma spawnIfHovering_squares (rnd : nat -> Q) (s : State Q) :
  squares (Centered.spawnIfHovering rnd s) = squares s \/
  exists gx gy u v,
    (exists k, u = rnd k) /\ (exists k, v = rnd k) /\
    squares (Centered.spawnIfHovering rnd s) =
    squares s ++
    [mkSquare gx gy (add (mul u (lit 0.5)) (lit 0.2)) (lit 1)
              (add (mul v (lit 0.03)) (lit 0.01))].
Proof.
  unfold Centered.spawnIfHovering. destruct (isHovering s); [|by left].
  simpl. match goal with |- context [if ?b then _ else _] => destruct b end;
    [|by left].
  match goal with |- context [Centered.spawn rnd ?s0] =>
    destruct (spawn_squares rnd s0) as [E|(gx & gy & E)]; rewrite E end.
  - by left.
  - right. simpl. eexists gx, gy, _, _. split; [eauto|]. split; [eauto|]. done.
Qed.

Lemma spawnIfHovering_ok (rnd : nat -> Q) (s : State Q) :
  draws_ok rnd -> state_ok s -> state_ok (Centered.spawnIfHovering rnd s).
Proof.
  intros Hd Hs sq.
  destruct (spawnIfHovering_squares rnd s)
    as [E|(gx & gy & u & v & [k1 ->] & [k2 ->] & E)]; rewrite E.
  - apply Hs.
  - rewrite elem_of_app, list_elem_of_singleton. intros [Hin| ->]; [by apply Hs|].
    apply spawned_ok; apply Hd.
Qed.

Lemma age_ok (sq : Square Q) :
  square_ok sq ->
  square_ok (age sq) /\ life (age sq) < life sq /\ life (age sq) < 1.
Proof.
  unfold square_ok, age. js_Q. simpl. intros (? & ? & ? & ? & ?).
  repeat split; lra.
Qed.

Lemma expired_false (sq : Square Q) : expired sq = false <-> 0 < life sq.
Proof. unfold expired. js_Q. apply Qle_bool_false. Qed.

Lemma expired_true (sq : Square Q) : expired sq = true <-> life sq <= 0.
Proof. unfold expired. js_Q. apply Qle_bool_iff. Qed.

Lemma advance_ok (l : list (Square Q)) (sq : Square Q) :
  (forall sq0, sq0 ∈ l -> square_ok sq0) -> sq ∈ advance l ->
  square_ok sq /\ 0 < life sq /\ life sq < 1.
Proof.
  intros Hl (sq0 & Hin & -> & He)%elem_of_advance.
  destruct (age_ok sq0 (Hl _ Hin)) as (? & ? & ?).
  apply expired_false in He. done.
Qed.

Lemma render_ok (rnd : nat -> Q) (s s' : State Q) (ops : list (DrawOp Q)) :
  draws_ok rnd -> state_ok s -> Centered.render rnd s = Some (s', ops) ->
  state_ok s'.
Proof.
  intros Hd Hs. rewrite render_eq. cbv zeta. intros [= <- _] sq Hin.
  simpl in Hin. eapply advance_ok; [|done].
  by apply spawnIfHovering_ok.
Qed.

Lemma step_ok (rnd : nat -> Q) (e : Event Q) (s s' : State Q) (ops : list (DrawOp Q)) :
  draws_ok rnd -> state_ok s -> Centered.step rnd e s = Some (s', ops) ->
  state_ok s'.
Proof.
  intros Hd Hs. destruct e; simpl; try (intros [= <- _]; exact Hs).
  - intros [= <- _]. unfold Centered.handleMouseMove.
    by destruct (containerRef s).
  - intros [= <- _]. unfold Centered.resizeCanvas. by destruct (containerRef s).
  - by apply render_ok.
Qed.

Lemma run_ok (rnd : nat -> Q) (es : list (Event Q)) (s s' : State Q)
    (ops : list (DrawOp Q)) :
  draws_ok rnd -> state_ok s -> Centered.run rnd es s = Some (s', ops) ->
  state_ok s'.
Proof.
  intros Hd. revert s ops. induction es as [|e es IH]; intros s ops Hs; simpl.
  - by intros [= <- _].
  - destruct (Centered.step rnd e s) as [[s1 ops1]|] eqn:E1; [|done].
    destruct (Centered.run rnd es s1) as [[s2 ops2]|] eqn:E2; [|done].
    intros [= <- _]. eapply IH; [|done]. by eapply step_ok.
Qed.

Lemma reachable_ok (rnd : nat -> Q) (s : State Q) :
  draws_ok rnd -> reachable rnd s -> state_ok s.
Proof.
  intros Hd (es & cv & c & ops & E). eapply run_ok; [done| |done].
  intros sq Hin. simpl in Hin. by apply elem_of_nil in Hin.
Qed.

(** What [render] leaves and paints, from a state that satisfies the
    invariant. *)
Lemma render_paints (rnd : nat -> Q) (s : State Q) :
  exists s' ops,
    Centered.render rnd s = Some (s', ops) /\
    squares s' = advance (squares (Centered.spawnIfHovering rnd s)) /\
    ops = clearRect 0 0 (width (canvas s)) (height (canvas s))
          :: map paint (rev (squares s')).
Proof. rewrite render_eq. cbv zeta. eexists _, _. split; [done|]. done. Qed.

Lemma fillRect_painted (l : list (Square Q)) (c : DrawOp Q)
    (r g b : Z) (a fx fy fw fh : Q) :
  fillRect r g b a fx fy fw fh ∈ c :: map paint (rev l) ->
  c = fillRect r g b a fx fy fw fh \/
  exists sq, sq ∈ l /\ a = opacity sq * life sq /\ fx = x sq /\ fy = y sq /\
             fw = 40 /\ fh = 40 /\ r = 255%Z /\ g = 255%Z /\ b = 255%Z.
Proof.
  rewrite elem_of_cons. intros [->|Hin]; [by left|]. right.
  apply list_elem_of_fmap in Hin as (sq & E & Hin).
  rewrite list_elem_of_In, <- in_rev, <- list_elem_of_In in Hin.
  exists sq. unfold paint in E. injection E as -> -> -> -> -> -> -> ->. done.
Qed.

(** *** The sentinel position *)

Lemma snap_sentinel (u : Q) :
  0 <= u /\ u < 1 ->
  -1200 <= snap (candidate (-1000) u) /\ snap (candidate (-1000) u) <= -840.
Proof.
  intros Hu. destruct (candidate_range (-1000) u Hu) as [Hl Hh].
  rewrite snap_eq. set (c := candidate (-1000) u) in *.
  assert (Hd : -30 <= c / 40 /\ c / 40 < -20).
  { assert (E : c == c / 40 * 40) by (field; discriminate).
    set (d := c / 40) in *. split; lra. }
  destruct Hd as [Hd1 Hd2].
  pose proof (Qfloor_resp_le _ _ Hd1) as F1. change (Qfloor (-30)) with (-30)%Z in F1.
  pose proof (Qfloor_le (c / 40)) as F2.
  assert (F3 : (Qfloor (c / 40) < -20)%Z).
  { rewrite Zlt_Qlt. change (inject_Z (-20)) with (-20). lra. }
  assert (F4 : (Qfloor (c / 40) <= -21)%Z) by lia.
  rewrite Zle_Qle in F1, F4.
  change (inject_Z (-30)) with (-30) in F1. change (inject_Z (-21)) with (-21) in F4.
  set (f := inject_Z (Qfloor (c / 40))) in *. split; lra.
Qed.

End Exact.

(** ** Claims on the exact model *)

Section ExactClaims.
Local Open Scope Q_scope.

(** C1: at every tick of a mounted component, the squares left in the
    collection by the advance-and-cull loop all have [0 < life <= 1]; they are
    exactly the aged squares whose life stayed positive, so a square whose
    life drops to [<= 0] is removed in that same tick; and every [fillRect] of
    the tick paints a square of the collection, whose life is positive. *)
Theorem C1_live_squares_have_positive_life (rnd : nat -> Q) (s : State Q) :
  draws_ok rnd -> reachable rnd s ->
  exists s' ops,
    Centered.render rnd s = Some (s', ops) /\
    (forall sq, sq ∈ squares s' -> 0 < life sq /\ life sq <= 1) /\
    (forall sq0, sq0 ∈ squares (Centered.spawnIfHovering rnd s) ->
       (life sq0 - decay sq0 <= 0 -> age sq0 ∉ squares s') /\
       (0 < life sq0 - decay sq0 -> age sq0 ∈ squares s')) /\
    (forall sq, sq ∈ squares s' ->
       exists sq0, sq0 ∈ squares (Centered.spawnIfHovering rnd s) /\ sq = age sq0) /\
    (forall r g b a fx fy fw fh,
       fillRect r g b a fx fy fw fh ∈ ops ->
       exists sq, sq ∈ squares s' /\ 0 < life sq /\
                  a = opacity sq * life sq /\ fx = x sq /\ fy = y sq).
Proof.
  intros Hd Hr. pose proof (reachable_ok rnd s Hd Hr) as Hs.
  pose proof (spawnIfHovering_ok rnd s Hd Hs) as Hs1.
  destruct (render_paints rnd s) as (s' & ops & E & Hsq & Hops).
  exists s', ops. split; [done|].
  assert (Hlive : forall sq, sq ∈ squares s' -> 0 < life sq /\ life sq <= 1).
  { intros sq Hin. rewrite Hsq in Hin.
    destruct (advance_ok _ sq Hs1 Hin) as ((? & _) & ? & _). done. }
  split; [done|]. split; [|split].
  - intros sq0 Hin0. split.
    + intros Hle Hin. apply Hlive in Hin as [Hpos _].
      unfold age in Hpos. js_Q. simpl in Hpos. lra.
    + intros Hpos. rewrite Hsq. apply elem_of_advance. exists sq0.
      split; [done|]. split; [done|]. by apply expired_false.
  - intros sq Hin. rewrite Hsq in Hin.
    apply elem_of_advance in Hin as (sq0 & ? & ? & _). eauto.
  - intros r g b a fx fy fw fh Hin. rewrite Hops in Hin.
    apply fillRect_painted in Hin as [[=]|(sq & Hin & -> & -> & -> & _)].
    exists sq. split; [done|]. split; [by apply Hlive|]. done.
Qed.


(** C3, as the code has it: with the pointer position at the sentinel, a tick spawns
    nothing when the hovering flag is false; when the flag is true it can
    spawn, and a square it spawns has both coordinates between -1200 and
    -840, off the drawing surface. *)
Theorem C3_sentinel_spawns_only_off_surface (rnd : nat -> Q) (s : State Q) :
  draws_ok rnd -> mousePos s = sentinel ->
  (isHovering s = false -> Centered.spawnIfHovering rnd s = s) /\
  (exists s' ops,
     Centered.render rnd s = Some (s', ops) /\
     squares s' = advance (squares (Centered.spawnIfHovering rnd s))) /\
  (squares (Centered.spawnIfHovering rnd s) = squares s \/
   exists sq,
     isHovering s = true /\
     squares (Centered.spawnIfHovering rnd s) = squares s ++ [sq] /\
     (-1200 <= x sq /\ x sq <= -840) /\ (-1200 <= y sq /\ y sq <= -840)).
Proof.
  intros Hd Hm. split; [apply spawnIfHovering_idle|].
  split; [destruct (render_paints rnd s) as (s' & ops & ? & ? & _); eauto|].
  unfold Centered.spawnIfHovering. destruct (isHovering s); [|by left].
  simpl. match goal with |- context [if ?b then _ else _] => destruct b end;
    [|by left].
  rewrite spawn_eq. cbv zeta. simpl. rewrite Hm. simpl.
  match goal with |- context [if ?b then _ else _] => destruct b end; simpl;
    [|by left].
  right. eexists. split; [done|]. split; [done|]. simpl.
  split; apply snap_sentinel, Hd.
Qed.

Lemma spawnIfHovering_spawned (rnd : nat -> Q) (s : State Q) :
  squares (Centered.spawnIfHovering rnd s) = squares s \/
  exists gx gy,
    squares (Centered.spawnIfHovering rnd s) =
    squares s ++
    [mkSquare gx gy
       (add (mul (rnd (3 + randomCalls s)%nat) (lit 0.5)) (lit 0.2)) (lit 1)
       (add (mul (rnd (4 + randomCalls s)%nat) (lit 0.03)) (lit 0.01))].
Proof.
  unfold Centered.spawnIfHovering. destruct (isHovering s); [|by left].
  unfold random. cbv zeta beta iota.
  match goal with |- context [if ?b then _ else _] => destruct b end;
    [|by left].
  rewrite spawn_eq. cbv zeta.
  cbn [mousePos randomCalls squares position opacityState isHovering canvas
       containerRef].
  match goal with |- context [if ?b then _ else _] => destruct b end;
    [|by left].
  right. eexists _, _. reflexivity.
Qed.

(** C6: the square a tick of a mounted component spawns has [life = 1], an
    opacity [0.2 + 0.5 u] in [0.2, 0.7] and a decay [0.01 + 0.03 v] in
    [0.01, 0.04], where [u] and [v] are the fourth and fifth draws of that
    tick; and every square left by the tick is a square of the collection
    with the same position, opacity and decay and a strictly smaller life. *)
Theorem C6_spawn_attributes_and_fading (rnd : nat -> Q) (s : State Q) :
  draws_ok rnd -> reachable rnd s ->
  exists s' ops,
    Centered.render rnd s = Some (s', ops) /\
    (forall sq,
       squares (Centered.spawnIfHovering rnd s) = squares s ++ [sq] ->
       life sq = 1 /\
       opacity sq == (2 # 10) + (5 # 10) * rnd (3 + randomCalls s)%nat /\
       (2 # 10 <= opacity sq /\ opacity sq <= 7 # 10) /\
       decay sq == (1 # 100) + (3 # 100) * rnd (4 + randomCalls s)%nat /\
       (1 # 100 <= decay sq /\ decay sq <= 4 # 100)) /\
    (forall sq', sq' ∈ squares s' ->
       exists sq, sq ∈ squares (Centered.spawnIfHovering rnd s) /\
         x sq' = x sq /\ y sq' = y sq /\
         opacity sq' = opacity sq /\ decay sq' = decay sq /\
         life sq' = life sq - decay sq /\ life sq' < life sq).
Proof.
  intros Hd Hr.
  pose proof (spawnIfHovering_ok rnd s Hd (reachable_ok rnd s Hd Hr)) as Hs1.
  destruct (render_paints rnd s) as (s' & ops & E & Hsq & _).
  exists s', ops. split; [done|]. split.
  - intros sq Hsp.
    destruct (spawnIfHovering_spawned rnd s) as [E1|(gx & gy & E1)];
      rewrite E1 in Hsp.
    + apply (f_equal length) in Hsp. rewrite length_app in Hsp. simpl in Hsp. lia.
    + apply app_inj_tail in Hsp as [_ <-]. js_Q. cbn [life opacity decay].
      destruct (Hd (3 + randomCalls s)%nat) as [? ?].
      destruct (Hd (4 + randomCalls s)%nat) as [? ?].
      split; [done|]. split; [ring|]. split; [split; lra|].
      split; [ring|]. split; lra.
  - intros sq' Hin. rewrite Hsq in Hin.
    apply elem_of_advance in Hin as (sq & Hin & -> & _).
    exists sq. split; [done|]. destruct (age_ok sq (Hs1 _ Hin)) as (_ & ? & _).
    done.
Qed.

(** C10: a square spawned in a tick is aged in the loop of that same tick
    and painted first, with alpha [opacity * (1 - decay)], which is below its
    opacity; and every square a tick of a mounted component paints has a life
    below 1. *)
Theorem C10_spawned_square_ages_before_first_paint (rnd : nat -> Q) (s : State Q) :
  draws_ok rnd -> reachable rnd s ->
  exists s' ops,
    Centered.render rnd s = Some (s', ops) /\
    (forall sq,
       squares (Centered.spawnIfHovering rnd s) = squares s ++ [sq] ->
       life sq = 1 /\
       squares s' = advance (squares s) ++ [age sq] /\
       life (age sq) = 1 - decay sq /\
       (exists rest,
          ops = clearRect 0 0 (width (canvas s)) (height (canvas s))
                :: fillRect 255 255 255 (opacity sq * (1 - decay sq))
                            (x sq) (y sq) 40 40
                :: rest) /\
       opacity sq * (1 - decay sq) < opacity sq) /\
    (forall r g b a fx fy fw fh,
       fillRect r g b a fx fy fw fh ∈ ops ->
       exists sq, sq ∈ squares s' /\ a = opacity sq * life sq /\ life sq < 1).
Proof.
  intros Hd Hr. pose proof (reachable_ok rnd s Hd Hr) as Hs.
  pose proof (spawnIfHovering_ok rnd s Hd Hs) as Hs1.
  destruct (render_paints rnd s) as (s' & ops & E & Hsq & Hops).
  exists s', ops. split; [done|]. split.
  - intros sq Hsp.
    assert (Hok : square_ok sq).
    { apply Hs1. rewrite Hsp, elem_of_app, list_elem_of_singleton. by right. }
    assert (Hl : life sq = 1).
    { destruct (spawnIfHovering_squares rnd s) as [E1|(gx & gy & u & v & _ & _ & E1)];
        rewrite E1 in Hsp.
      - apply (f_equal length) in Hsp. rewrite length_app in Hsp. simpl in Hsp. lia.
      - apply app_inj_tail in Hsp as [_ <-]. done. }
    destruct Hok as (_ & ? & ? & ? & _).
    assert (He : expired (age sq) = false).
    { apply expired_false. unfold age. js_Q. simpl. rewrite Hl. lra. }
    assert (Hadv : squares s' = advance (squares s) ++ [age sq]).
    { rewrite Hsq, Hsp, advance_app, advance_cons, He. done. }
    split; [done|]. split; [done|]. split; [unfold age; js_Q; simpl; by rewrite Hl|].
    split; [|nra].
    rewrite Hops, Hadv, rev_app_distr. simpl. eexists.
    unfold paint at 1. unfold age, Centered.gridSize. js_Q. simpl. rewrite Hl. done.
  - intros r g b a fx fy fw fh Hin. rewrite Hops in Hin.
    apply fillRect_painted in Hin as [[=]|(sq & Hin & -> & _)].
    exists sq. split; [done|]. split; [done|].
    rewrite Hsq in Hin. by destruct (advance_ok _ sq Hs1 Hin) as (_ & _ & ?).
Qed.

Lemma demo_draws_ok : draws_ok demo_draws.
Proof. intros [|k]; split; unfold Qle, Qlt; simpl; lia. Qed.

Lemma demo_hover_reachable : reachable demo_draws (demo_hover (N := Q)).
Proof.
  exists [MouseEnter; MouseMove 110 120], demo_canvas, demo_container, [].
  reflexivity.
Qed.

Lemma demo_entered_reachable : reachable demo_draws (demo_entered (N := Q)).
Proof. exists [MouseEnter], demo_canvas, demo_container, []. reflexivity. Qed.

Lemma C1_witness :
  draws_ok demo_draws /\ reachable demo_draws (demo_hover (N := Q)) /\
  exists s' ops,
    Centered.render demo_draws demo_hover = Some (s', ops) /\
    length (squares s') = 1%nat /\
    (forall sq, sq ∈ squares s' -> 0 < life sq /\ life sq <= 1).
Proof.
  split; [exact demo_draws_ok|]. split; [exact demo_hover_reachable|].
  destruct (C1_live_squares_have_positive_life demo_draws demo_hover
              demo_draws_ok demo_hover_reachable)
    as (s' & ops & E & Hlive & _).
  exists s', ops. split; [exact E|]. split; [|exact Hlive].
  vm_compute in E. injection E as <- _. reflexivity.
Defined.


(** Where the two number representations part: at the pointer (360, 100)
    with the largest draw below 1 as the first offset, exact arithmetic keeps
    the candidate just below 560 and accepts the cell at (520, 80), while
    binary64 rounds the candidate to 560 and rejects it. *)
Lemma edge_spawn_exact_and_binary64 :
  (exists sq,
     squares (Centered.spawn
                (fun k => match k with
                          | O => 1 - (1 # 9007199254740992)
                          | S _ => 1 # 2
                          end)
                (Centered.handleMouseMove 370 120
                   (Centered.initial demo_canvas demo_container))) = [sq] /\
     x sq == 520 /\ y sq == 80) /\
  squares (Centered.spawn edge_draws edge_state) = [].
Proof.
  split.
  - eexists. split; [vm_compute; reflexivity|]. split; reflexivity.
  - vm_compute. reflexivity.
Qed.

(** The sentinel does not prevent a spawn: on the exact model and on
    binary64, the first frame after a pointer-enter, with no pointer-move
    yet, spawns a square at (-1000, -1000) and paints it. *)
Lemma C3_spawn_at_sentinel :
  (exists (s' : State Q) ops sq a,
     mousePos (demo_entered (N := Q)) = sentinel /\
     isHovering (demo_entered (N := Q)) = true /\
     squares (demo_entered (N := Q)) = [] /\
     Centered.render demo_draws demo_entered = Some (s', ops) /\
     squares s' = [sq] /\ x sq == -1000 /\ y sq == -1000 /\
     ops = [clearRect 0 0 300 150; fillRect 255 255 255 a (x sq) (y sq) 40 40]) /\
  (exists (s' : State float) ops,
     mousePos (demo_entered (N := float)) = sentinel /\
     isHovering (demo_entered (N := float)) = true /\
     squares (demo_entered (N := float)) = [] /\
     Centered.render demo_draws demo_entered = Some (s', ops) /\
     squares s' = [mkSquare (-1000) (-1000) 0.45 0.975 0.025]%float /\
     ops = [clearRect 0 0 300 150;
            fillRect 255 255 255 (0.45 * 0.975) (-1000) (-1000) 40 40]%float).
Proof.
  split.
  - eexists _, _, _, _. split; [reflexivity|]. split; [reflexivity|].
    split; [reflexivity|]. split; [vm_compute; reflexivity|].
    split; [reflexivity|]. split; [reflexivity|]. split; reflexivity.
  - eexists _, _. split; [reflexivity|]. split; [reflexivity|].
    split; [reflexivity|]. split; [vm_compute; reflexivity|].
    split; vm_compute; reflexivity.
Qed.

Lemma C3_witness :
  draws_ok demo_draws /\ mousePos (demo_entered (N := Q)) = sentinel /\
  exists sq,
    squares (Centered.spawnIfHovering demo_draws (demo_entered (N := Q))) = [sq] /\
    (-1200 <= x sq /\ x sq <= -840) /\ (-1200 <= y sq /\ y sq <= -840).
Proof.
  split; [exact demo_draws_ok|]. split; [reflexivity|].
  destruct (C3_sentinel_spawns_only_off_surface demo_draws demo_entered
              demo_draws_ok eq_refl) as (_ & _ & [E|(sq & _ & E & Hx & Hy)]).
  - vm_compute in E. discriminate E.
  - exists sq. split; [exact E|]. split; [exact Hx|exact Hy].
Defined.

Lemma C6_witness :
  draws_ok demo_draws /\ reachable demo_draws (demo_hover (N := Q)) /\
  exists sq,
    squares (Centered.spawnIfHovering demo_draws (demo_hover (N := Q))) = [sq] /\
    life sq = 1 /\
    (2 # 10 <= opacity sq /\ opacity sq <= 7 # 10) /\
    (1 # 100 <= decay sq /\ decay sq <= 4 # 100).
Proof.
  split; [exact demo_draws_ok|]. split; [exact demo_hover_reachable|].
  destruct (C6_spawn_attributes_and_fading demo_draws demo_hover
              demo_draws_ok demo_hover_reachable)
    as (s' & ops & _ & Hsp & _).
  assert (E : exists sq,
            squares (Centered.spawnIfHovering demo_draws (demo_hover (N := Q))) =
            squares (demo_hover (N := Q)) ++ [sq]).
  { eexists. vm_compute. reflexivity. }
  destruct E as [sq E]. destruct (Hsp sq E) as (Hl & _ & Ho & _ & Hdc).
  exists sq. split; [exact E|]. split; [exact Hl|]. split; [exact Ho|exact Hdc].
Defined.

Lemma C10_witness :
  draws_ok demo_draws /\ reachable demo_draws (demo_hover (N := Q)) /\
  exists s' ops,
    Centered.render demo_draws (demo_hover (N := Q)) = Some (s', ops) /\
    forall r g b a fx fy fw fh,
      fillRect r g b a fx fy fw fh ∈ ops ->
      exists sq, sq ∈ squares s' /\ a = opacity sq * life sq /\ life sq < 1.
Proof.
  split; [exact demo_draws_ok|]. split; [exact demo_hover_reachable|].
  destruct (C10_spawned_square_ages_before_first_paint demo_draws demo_hover
              demo_draws_ok demo_hover_reachable)
    as (s' & ops & E & _ & Hp).
  exists s', ops. split; [exact E|exact Hp].
Defined.

End ExactClaims.

(** ** Scenarios on both number representations *)

Section Scenarios.

(** The binary64 literals and [Math.floor] on sample values. *)
Lemma float_lit_examples :
  map float_lit [4 # 10; -1000; 5 # 100; 0.03; 200]%Q
  = [0.4; -1000; 0.05; 0.03; 200]%float.
Proof. vm_compute. reflexivity. Qed.

Lemma float_floor_examples :
  map float_floor [2.5; -2.5; -25; 0.3; -0.3; 7; 1e300; -24.000001; 4503599627370497]%float
  = [2; -3; -25; 0; -1; 7; 1e300; -25; 4503599627370497]%float.
Proof. vm_compute. reflexivity. Qed.

(** The largest draw below 1 gives the largest opacity and decay a spawn can
    sample on binary64: the opacity is the double 0.7 itself, the decay stays
    below the double 0.04; the draw 0 gives 0.2 and 0.01. *)
Lemma float_spawn_extremes :
  add (mul (PrimFloat.next_down 1) (lit 0.5)) (lit 0.2) = 0.7%float /\
  PrimFloat.ltb (add (mul (PrimFloat.next_down 1) (lit 0.03)) (lit 0.01)) 0.04 = true /\
  add (mul 0%float (lit 0.5)) (lit 0.2) = 0.2%float /\
  add (mul 0%float (lit 0.03)) (lit 0.01) = 0.01%float.
Proof. vm_compute. auto. Qed.

Lemma C4_witness :
  noEnter (replicate 10 (AnimationFrame (N := Q))) = true /\
  (exists (s0 : State Q) ops0 s1 ops1,
     Centered.mount demo_draws (Some demo_canvas) true demo_container = Some (s0, ops0) /\
     Centered.run demo_draws (replicate 10 AnimationFrame) s0 = Some (s1, ops1) /\
     squares s0 = [] /\ squares s1 = [] /\ randomCalls s1 = 0) /\
  (exists s1 ops1,
     Centered.run demo_draws (MouseLeave :: replicate 10 AnimationFrame)
                  (demo_one_square (N := Q)) = Some (s1, ops1) /\
     randomCalls s1 = randomCalls (demo_one_square (N := Q)) /\
     length (squares s1) ≤ 1).
Proof.
  split; [reflexivity|].
  destruct (C4_no_spawn_while_not_hovering demo_draws
              (replicate 10 AnimationFrame) (demo_one_square (N := Q))
              demo_canvas demo_container eq_refl)
    as (_ & Hm & _ & (s1 & ops1 & E & _ & Hr & _ & Hl)).
  split; [exact Hm|]. exists s1, ops1. split; [exact E|]. split; [exact Hr|exact Hl].
Defined.

(** C5: the square with [life = 1.0], [decay = 0.05], [opacity = 0.6] is
    alone in the collection after 19 frames, with life 0.05 and painted with
    alpha 0.03 (exactly so on rationals, within 1e-15 on binary64); the
    20th frame removes it and paints nothing. *)
Theorem C5_scenario3_lifetime
    (gx gy : Q) (cv : Canvas Q) (c : option (Container Q)) (rnd : nat -> Q)
    (fx fy : float) (fcv : Canvas float) (fc : option (Container float))
    (frnd : nat -> float) :
  (exists s19 ops19 sq a s20,
     Centered.run rnd (replicate 19 AnimationFrame) (scenario3 gx gy cv c)
       = Some (s19, ops19) /\
     squares s19 = [sq] /\
     (life sq == 5 # 100)%Q /\ opacity sq = (6 # 10)%Q /\
     last ops19 = Some (fillRect 255 255 255 a gx gy 40%Q 40%Q) /\
     a = (opacity sq * life sq)%Q /\ (a == 3 # 100)%Q /\
     Centered.render rnd s19
       = Some (s20, [clearRect 0%Q 0%Q (width cv) (height cv)]) /\
     squares s20 = [] /\
     Centered.run rnd (replicate 20 AnimationFrame) (scenario3 gx gy cv c)
       = Some (s20, ops19 ++ [clearRect 0%Q 0%Q (width cv) (height cv)])) /\
  (exists s19 ops19 sq a s20,
     Centered.run frnd (replicate 19 AnimationFrame) (scenario3 fx fy fcv fc)
       = Some (s19, ops19) /\
     squares s19 = [sq] /\ life sq = 0.049999999999999684%float /\
     PrimFloat.ltb (PrimFloat.abs (life sq - 0.05)) 1e-15 = true /\
     opacity sq = 0.6%float /\
     last ops19 = Some (fillRect 255 255 255 a fx fy 40%float 40%float) /\
     a = (opacity sq * life sq)%float /\
     PrimFloat.ltb (PrimFloat.abs (a - 0.03)) 1e-15 = true /\
     PrimFloat.leb (life sq - decay sq) 0 = true /\
     Centered.render frnd s19
       = Some (s20, [clearRect 0%float 0%float (width fcv) (height fcv)]) /\
     squares s20 = [] /\
     Centered.run frnd (replicate 20 AnimationFrame) (scenario3 fx fy fcv fc)
       = Some (s20, ops19 ++ [clearRect 0%float 0%float (width fcv) (height fcv)])).
Proof.
  split.
  - eexists _, _, _, _, _. split; [vm_compute; reflexivity|].
    split; [reflexivity|]. split; [reflexivity|]. split; [reflexivity|].
    split; [reflexivity|]. split; [reflexivity|]. split; [reflexivity|].
    split; [vm_compute; reflexivity|]. split; [reflexivity|].
    vm_compute. reflexivity.
  - eexists _, _, _, _, _. split; [vm_compute; reflexivity|].
    split; [reflexivity|]. split; [reflexivity|]. split; [reflexivity|].
    split; [reflexivity|]. split; [reflexivity|]. split; [reflexivity|].
    split; [reflexivity|]. split; [reflexivity|].
    split; [vm_compute; reflexivity|]. split; [reflexivity|].
    vm_compute. reflexivity.
Qed.

End Scenarios.

(** ** Further properties of the loop, the handlers and the runs *)

Section MoreGeneric.
Context {N : Type} {JN : JsNum N}.

(** X1: the backwards loop with [splice] started at index [length pre - 1]
    visits each of the first [length pre] squares exactly once: it ages them,
    removes the expired ones, keeps the others in their order, leaves the rest
    of the array untouched and paints the survivors from the last to the
    first; started past the end of the array it fails on its first read. *)
Theorem X1_loop_visits_each_square_once
    (pre suf : list (Square N)) (ops : list (DrawOp N)) (k : nat) :
  Centered.updateAndDraw (length pre) (pre ++ suf) ops =
    Some (List.filter (fun sq => negb (expired sq)) (map age pre) ++ suf,
          ops ++ map paint (rev (List.filter (fun sq => negb (expired sq)) (map age pre)))) /\
  Centered.updateAndDraw (S (length pre + k)) pre ops = None.
Proof.
  split; [apply updateAndDraw_app|].
  rewrite updateAndDraw_S, lookup_ge_None_2; [done|lia].
Qed.

Lemma spawn_calls (rnd : nat -> N) (s : State N) :
  (randomCalls (Centered.spawn rnd s) = 2 + randomCalls s /\
   squares (Centered.spawn rnd s) = squares s) \/
  (randomCalls (Centered.spawn rnd s) = 4 + randomCalls s /\
   exists sq, squares (Centered.spawn rnd s) = squares s ++ [sq]).
Proof.
  rewrite spawn_eq. cbv zeta.
  match goal with |- context [if ?b then _ else _] => destruct b end; simpl.
  - right. eauto.
  - left. done.
Qed.

Lemma spawnIfHovering_calls (rnd : nat -> N) (s : State N) :
  (randomCalls (Centered.spawnIfHovering rnd s) = randomCalls s /\
   squares (Centered.spawnIfHovering rnd s) = squares s) \/
  (isHovering s = true /\
   ((randomCalls (Centered.spawnIfHovering rnd s) = 1 + randomCalls s /\
     squares (Centered.spawnIfHovering rnd s) = squares s) \/
    (randomCalls (Centered.spawnIfHovering rnd s) = 3 + randomCalls s /\
     squares (Centered.spawnIfHovering rnd s) = squares s) \/
    (randomCalls (Centered.spawnIfHovering rnd s) = 5 + randomCalls s /\
     exists sq, squares (Centered.spawnIfHovering rnd s) = squares s ++ [sq]))).
Proof.
  unfold Centered.spawnIfHovering. destruct (isHovering s); [|by left].
  right. split; [done|]. simpl.
  match goal with |- context [if ?b then _ else _] => destruct b end;
    [|by left].
  match goal with |- context [Centered.spawn rnd ?s0] =>
    destruct (spawn_calls rnd s0) as [[-> ->]|[-> [sq ->]]] end; simpl.
  - right. left. done.
  - right. right. eauto.
Qed.

(** X2: one frame makes 0, 1, 3 or 5 calls of [Math.random()] (none unless
    hovering: the chance, then the two offsets, then opacity and decay) and
    appends a square exactly when it makes 5; so a run makes at most 5 calls
    per frame and the collection grows by at most one square per frame. *)
Theorem X2_random_calls_and_growth
    (rnd : nat -> N) (es : list (Event N)) (s : State N) :
  (exists s' ops,
     Centered.render rnd s = Some (s', ops) /\
     length (squares s') ≤ length (squares (Centered.spawnIfHovering rnd s)) /\
     randomCalls s' = randomCalls (Centered.spawnIfHovering rnd s) /\
     ((randomCalls s' = randomCalls s /\
       squares (Centered.spawnIfHovering rnd s) = squares s) \/
      (isHovering s = true /\
       ((randomCalls s' = 1 + randomCalls s /\
         squares (Centered.spawnIfHovering rnd s) = squares s) \/
        (randomCalls s' = 3 + randomCalls s /\
         squares (Centered.spawnIfHovering rnd s) = squares s) \/
        (randomCalls s' = 5 + randomCalls s /\
         exists sq, squares (Centered.spawnIfHovering rnd s) = squares s ++ [sq]))))) /\
  (exists s' ops,
     Centered.run rnd es s = Some (s', ops) /\
     randomCalls s ≤ randomCalls s' ≤ randomCalls s + 5 * frames es /\
     length (squares s') ≤ length (squares s) + frames es).
Proof.
  split.
  - rewrite render_eq. cbv zeta. eexists _, _. split; [done|]. simpl.
    split; [apply length_advance|]. split; [done|].
    apply spawnIfHovering_calls.
  - revert s. induction es as [|e es IH]; intros s.
    { exists s, []. simpl. split; [done|]. lia. }
    assert (exists s1 ops1, Centered.step rnd e s = Some (s1, ops1) /\
              randomCalls s ≤ randomCalls s1 ≤ randomCalls s + 5 * frames [e] /\
              length (squares s1) ≤ length (squares s) + frames [e])
      as (s1 & ops1 & E1 & Hr1 & Hl1).
    { destruct e; simpl.
      - eexists _, _. split; [done|]. unfold Centered.handleMouseMove.
        destruct (containerRef s); simpl; lia.
      - eexists _, _. split; [done|]. simpl. lia.
      - eexists _, _. split; [done|]. simpl. lia.
      - eexists _, _. split; [done|]. unfold Centered.resizeCanvas.
        destruct (containerRef s); simpl; lia.
      - rewrite render_eq. cbv zeta. eexists _, _. split; [done|]. simpl.
        pose proof (length_advance (squares (Centered.spawnIfHovering rnd s))).
        unfold frames. simpl.
        destruct (spawnIfHovering_calls rnd s)
          as [[Hc Hs]|[_ [[Hc Hs]|[[Hc Hs]|[Hc [sq Hs]]]]]];
          rewrite Hs in *; rewrite ?length_app in *; simpl in *; lia.
      - eexists _, _. split; [done|]. simpl. lia. }
    destruct (IH s1) as (s2 & ops2 & E2 & Hr2 & Hl2).
    exists s2, (ops1 ++ ops2). simpl. rewrite E1, E2. split; [done|].
    assert (frames (e :: es) = frames [e] + frames es) as ->.
    { unfold frames. by destruct e. }
    lia.
Qed.

(** X3: events other than animation frames never touch the particle
    collection or the oracle, and draw nothing: the collection is changed by
    [render] alone. *)
Theorem X3_only_frames_touch_the_collection
    (rnd : nat -> N) (es : list (Event N)) (s : State N) :
  frames es = 0 ->
  exists s',
    Centered.run rnd es s = Some (s', []) /\
    squares s' = squares s /\ randomCalls s' = randomCalls s.
Proof.
  revert s. induction es as [|e es IH]; intros s Hf.
  - by exists s.
  - assert (frames es = 0 /\ exists s1, Centered.step rnd e s = Some (s1, []) /\
              squares s1 = squares s /\ randomCalls s1 = randomCalls s)
      as (Hf' & s1 & E1 & Hs1 & Hr1).
    { unfold frames in *. destruct e; simpl in *; try discriminate Hf;
        (split; [done|]); eexists; (split; [done|]); try done.
      - unfold Centered.handleMouseMove. by destruct (containerRef s).
      - unfold Centered.resizeCanvas. by destruct (containerRef s). }
    destruct (IH s1 Hf') as (s2 & E2 & Hs2 & Hr2).
    exists s2. simpl. rewrite E1, E2. split; [done|]. split; congruence.
Qed.

Lemma run_pointer_state
    (rnd : nat -> N) (es : list (Event N)) (cv : Canvas N) (c : option (Container N)) :
  exists s ops,
    Centered.run rnd es (Centered.initial cv c) = Some (s, ops) /\
    (opacityState s = lit 0 \/ opacityState s = lit 1) /\
    (isHovering s = true -> opacityState s = lit 1) /\
    (mousePos s = sentinel \/ mousePos s = position s).
Proof.
  set (I := fun s : State N =>
    (opacityState s = lit 0 \/ opacityState s = lit 1) /\
    (isHovering s = true -> opacityState s = lit 1) /\
    (mousePos s = sentinel \/ mousePos s = position s)).
  assert (Hstep : forall e s s' ops,
            I s -> Centered.step rnd e s = Some (s', ops) -> I s').
  { intros e s s' ops (Ho & Hh & Hm). destruct e; simpl.
    - intros [= <- _]. unfold Centered.handleMouseMove.
      destruct (containerRef s); [|done]. split; [by right|]. split; [done|by right].
    - intros [= <- _]. split; [by right|]. done.
    - intros [= <- _]. split; [by left|]. split; [done|by left].
    - intros [= <- _]. unfold Centered.resizeCanvas. by destruct (containerRef s).
    - rewrite render_eq. cbv zeta. intros [= <- _].
      destruct (spawnIfHovering_frame rnd s) as (Ep & Eo & Em & Eh & _).
      unfold I. simpl. rewrite Ep, Eo, Em, Eh. done.
    - intros [= <- _]. done. }
  assert (Hrun : forall es s, I s ->
            exists s' ops, Centered.run rnd es s = Some (s', ops) /\ I s').
  { clear es. intros es. induction es as [|e es IH]; intros s Hs.
    - by exists s, [].
    - destruct (step_total rnd e s) as [[s1 ops1] E1].
      destruct (IH s1 (Hstep _ _ _ _ Hs E1)) as (s2 & ops2 & E2 & H2).
      exists s2, (ops1 ++ ops2). simpl. by rewrite E1, E2. }
  destruct (Hrun es (Centered.initial cv c)) as (s & ops & E & H).
  { split; [by left|]. split; [done|by left]. }
  by exists s, ops.
Qed.

(** X4: in every state a mounted component can reach, the glow opacity is 0
    or 1 and is 1 whenever the hovering flag is set, and the pointer position
    read by the animation is either the sentinel or the position the glow is
    anchored at. *)
Theorem X4_pointer_state_invariant
    (rnd : nat -> N) (es : list (Event N)) (cv : Canvas N) (c : option (Container N)) :
  exists s ops,
    Centered.run rnd es (Centered.initial cv c) = Some (s, ops) /\
    (opacityState s = lit 0 \/ opacityState s = lit 1) /\
    (isHovering s = true -> opacityState s = lit 1) /\
    (mousePos s = sentinel \/ mousePos s = position s).
Proof. apply run_pointer_state. Qed.

End MoreGeneric.

Lemma X3_witness :
  frames [MouseEnter (N := Q); MouseMove 5%Q 6%Q; WindowResize; MouseLeave] = 0 /\
  exists s',
    Centered.run demo_draws [MouseEnter; MouseMove 5%Q 6%Q; WindowResize; MouseLeave]
                 (demo_one_square (N := Q)) = Some (s', []) /\
    squares s' = squares (demo_one_square (N := Q)).
Proof.
  split; [reflexivity|].
  destruct (X3_only_frames_touch_the_collection demo_draws
              [MouseEnter; MouseMove 5%Q 6%Q; WindowResize; MouseLeave]
              (demo_one_square (N := Q)) eq_refl) as (s' & E & Hs & _).
  exists s'. split; [exact E|exact Hs].
Defined.

(** ** The effect: set-up, frame requests and clean-up *)

Section LifecycleFacts.
Context {N : Type} {JN : JsNum N}.

Lemma renderAndRequest_eq (rnd : nat -> N) (p : Mounted N) :
  exists s ops,
    Centered.render rnd (comp p) = Some (s, ops) /\
    renderAndRequest rnd p =
    Some (mkMounted s (nextHandle p) (frameRequests p ++ [nextHandle p])
                    (S (nextHandle p)) (resizeListener p) (attached p), ops).
Proof.
  unfold renderAndRequest. rewrite render_eq. cbv zeta. by eexists _, _.
Qed.

Lemma browserStep_active (rnd : nat -> N) (e : Event N) (p : Mounted N) :
  active p ->
  exists p' ops,
    browserStep rnd e p = Some (p', ops) /\
    Centered.step rnd e (comp p) = Some (comp p', ops) /\
    active p' /\ animationFrameId p' = animationFrameId p + frames [e].
Proof.
  intros (Hq & Hl & Ha & Hn). unfold active.
  destruct e; simpl; rewrite ?Ha, ?Hl;
    try (eexists _, _; split; [done|]; simpl; split; [done|];
         rewrite Nat.add_0_r; done).
  rewrite Hq. simpl.
  match goal with |- context [renderAndRequest rnd ?q] =>
    destruct (renderAndRequest_eq rnd q) as (s & ops & E & ->) end.
  simpl in *. rewrite E. eexists _, _. split; [done|]. simpl.
  rewrite app_nil_r. split; [done|]. rewrite Hn. unfold frames. simpl.
  split; [done|]. lia.
Qed.

Lemma browserRun_active (rnd : nat -> N) (es : list (Event N)) (p : Mounted N) :
  active p ->
  exists p' ops,
    browserRun rnd es p = Some (p', ops) /\
    Centered.run rnd es (comp p) = Some (comp p', ops) /\
    active p' /\ animationFrameId p' = animationFrameId p + frames es.
Proof.
  revert p. induction es as [|e es IH]; intros p Hp.
  - exists p, []. simpl. split; [done|]. split; [done|]. split; [done|].
    unfold frames. simpl. lia.
  - destruct (browserStep_active rnd e p Hp) as (p1 & ops1 & E1 & R1 & H1 & A1).
    destruct (IH p1 H1) as (p2 & ops2 & E2 & R2 & H2 & A2).
    exists p2, (ops1 ++ ops2). simpl. rewrite E1, E2, R1, R2.
    split; [done|]. split; [done|]. split; [done|].
    rewrite A2, A1. unfold frames. destruct e; simpl; lia.
Qed.

Lemma effectSetup_active (rnd : nat -> N) (cv : Canvas N) (c : option (Container N)) :
  exists p0 ops0,
    effectSetup rnd true true (committed cv c) = Some (p0, ops0) /\
    Centered.mount rnd (Some cv) true c = Some (comp p0, ops0) /\
    active p0 /\ animationFrameId p0 = 1.
Proof.
  unfold effectSetup, Centered.mount.
  match goal with |- context [renderAndRequest rnd ?q] =>
    destruct (renderAndRequest_eq rnd q) as (s & ops & E & ->) end.
  simpl in E. rewrite E. eexists _, _. split; [done|]. by simpl.
Qed.

Lemma effectSetup_active_from (rnd : nat -> N) (cv : Canvas N)
    (c : option (Container N)) (h : nat) :
  exists p0 ops0,
    effectSetup rnd true true (mkMounted (Centered.initial cv c) 0 [] h false true)
      = Some (p0, ops0) /\
    Centered.mount rnd (Some cv) true c = Some (comp p0, ops0) /\
    active p0.
Proof.
  unfold effectSetup, Centered.mount.
  match goal with |- context [renderAndRequest rnd ?q] =>
    destruct (renderAndRequest_eq rnd q) as (s & ops & E & ->) end.
  simpl in E. rewrite E. eexists _, _. split; [done|]. by simpl.
Qed.

(** X5: with a canvas and a 2D context, the effect followed by any sequence
    of browser events behaves as [mount] followed by the same events handled
    directly ([render] on each frame, [resizeCanvas] on each resize): same
    component state, same drawing.  Throughout, exactly one frame request of
    the component is pending, it is the one [animationFrameId] holds, and the
    resize listener stays registered; this holds whatever handle the browser
    hands out first. *)
Theorem X5_effect_runs_one_render_per_frame
    (rnd : nat -> N) (es : list (Event N)) (cv : Canvas N)
    (c : option (Container N)) (h : nat) :
  exists p0 ops0 p ops,
    effectSetup rnd true true (mkMounted (Centered.initial cv c) 0 [] h false true)
      = Some (p0, ops0) /\
    Centered.mount rnd (Some cv) true c = Some (comp p0, ops0) /\
    browserRun rnd es p0 = Some (p, ops) /\
    Centered.run rnd es (comp p0) = Some (comp p, ops) /\
    frameRequests p = [animationFrameId p] /\
    resizeListener p = true.
Proof.
  destruct (effectSetup_active_from rnd cv c h) as (p0 & ops0 & E0 & M0 & H0).
  destruct (browserRun_active rnd es p0 H0) as (p & ops & E & R & (Hq & Hl & _) & _).
  exists p0, ops0, p, ops. done.
Qed.

Lemma browserStep_cleaned (rnd : nat -> N) (e : Event N) (p : Mounted N) :
  frameRequests p = [] -> resizeListener p = false -> attached p = false ->
  browserStep rnd e p = Some (p, []).
Proof.
  intros Hq Hl Ha. destruct p as [s i q n l a]. simpl in *. subst.
  by destruct e.
Qed.

Lemma browserRun_cleaned (rnd : nat -> N) (es : list (Event N)) (p : Mounted N) :
  frameRequests p = [] -> resizeListener p = false -> attached p = false ->
  browserRun rnd es p = Some (p, []).
Proof.
  intros Hq Hl Ha. induction es as [|e es IH]; [done|].
  simpl. by rewrite browserStep_cleaned, IH.
Qed.

(** X6: after the clean-up of the effect, whatever happened before, no
    frame request is pending and no listener is left, and no later event
    (frame, resize or stray mouse event) changes the component or draws
    anything. *)
Theorem X6_cleanup_stops_everything
    (rnd : nat -> N) (es es' : list (Event N)) (cv : Canvas N)
    (c : option (Container N)) :
  exists p0 ops0 p ops,
    effectSetup rnd true true (committed cv c) = Some (p0, ops0) /\
    browserRun rnd es p0 = Some (p, ops) /\
    frameRequests (effectCleanup p) = [] /\
    resizeListener (effectCleanup p) = false /\
    squares (comp (effectCleanup p)) = squares (comp p) /\
    browserRun rnd es' (effectCleanup p) = Some (effectCleanup p, []).
Proof.
  destruct (effectSetup_active rnd cv c) as (p0 & ops0 & E0 & _ & H0 & _).
  destruct (browserRun_active rnd es p0 H0) as (p & ops & E & _ & (Hq & _) & _).
  exists p0, ops0, p, ops. split; [done|]. split; [done|].
  assert (Hc : frameRequests (effectCleanup p) = []).
  { unfold effectCleanup. simpl. rewrite Hq. simpl. by rewrite Nat.eqb_refl. }
  split; [done|]. split; [done|]. split; [done|].
  by apply browserRun_cleaned.
Qed.

End LifecycleFacts.

Section EarlyReturn.
Context {N : Type} {JN : JsNum N}.

Lemma browserRun_idle (rnd : nat -> N) (es : list (Event N)) (p : Mounted N) :
  frameRequests p = [] -> resizeListener p = false -> attached p = true ->
  exists p',
    browserRun rnd es p = Some (p', []) /\
    Centered.run rnd
      (List.filter (fun e => match e with
                             | AnimationFrame | WindowResize => false
                             | _ => true
                             end) es) (comp p) = Some (comp p', []) /\
    frameRequests p' = [] /\ resizeListener p' = false /\
    squares (comp p') = squares (comp p) /\
    randomCalls (comp p') = randomCalls (comp p) /\
    canvas (comp p') = canvas (comp p).
Proof.
  revert p. induction es as [|e es IH]; intros p Hq Hl Ha.
  - by exists p.
  - assert (exists p1,
      browserStep rnd e p = Some (p1, []) /\
      frameRequests p1 = [] /\ resizeListener p1 = false /\ attached p1 = true /\
      squares (comp p1) = squares (comp p) /\
      randomCalls (comp p1) = randomCalls (comp p) /\
      canvas (comp p1) = canvas (comp p) /\
      match e with
      | AnimationFrame | WindowResize => comp p1 = comp p
      | _ => Centered.step rnd e (comp p) = Some (comp p1, [])
      end) as (p1 & E1 & Hq1 & Hl1 & Ha1 & Hs1 & Hr1 & Hc1 & Hcomp).
    { destruct p as [s i q n l a]. simpl in *. subst.
      destruct e; simpl; eexists; (split; [done|]); simpl;
        repeat (split; [done|]); try done.
      - unfold Centered.handleMouseMove. destruct (containerRef s); done.
      }
    destruct (IH p1 Hq1 Hl1 Ha1) as (p2 & E2 & R2 & Hq2 & Hl2 & Hs2 & Hr2 & Hc2).
    exists p2. simpl. rewrite E1, E2. split; [done|].
    split; [|repeat split; congruence].
    destruct e; simpl in Hcomp |- *;
      first [ by rewrite <- Hcomp
            | injection Hcomp as Hcomp; by rewrite Hcomp, R2 ].
Qed.

(** X7: without a canvas or without a 2D context the effect registers
    nothing; then frames and window resizes do nothing at all, the collection
    stays empty, [Math.random()] is never called, the canvas is never
    resized and nothing is drawn, while the mouse handlers keep working as
    if those events had not occurred. *)
Theorem X7_effect_without_canvas_or_context
    (rnd : nat -> N) (es : list (Event N)) (cv : Canvas N)
    (c : option (Container N)) (hasCanvas hasCtx : bool) :
  hasCanvas && hasCtx = false ->
  effectSetup rnd hasCanvas hasCtx (committed cv c) = Some (committed cv c, []) /\
  exists p,
    browserRun rnd es (committed cv c) = Some (p, []) /\
    Centered.run rnd
      (List.filter (fun e => match e with
                             | AnimationFrame | WindowResize => false
                             | _ => true
                             end) es) (Centered.initial cv c) = Some (comp p, []) /\
    squares (comp p) = [] /\ randomCalls (comp p) = 0 /\ canvas (comp p) = cv /\
    frameRequests p = [].
Proof.
  intros Hb. split.
  - unfold effectSetup. destruct hasCanvas, hasCtx; done.
  - destruct (browserRun_idle rnd es (committed cv c) eq_refl eq_refl eq_refl)
      as (p & E & R & Hq & _ & Hs & Hr & Hc).
    exists p. done.
Qed.

End EarlyReturn.

Lemma X7_witness :
  true && false = false /\
  exists p,
    browserRun demo_draws [MouseEnter; AnimationFrame; MouseMove 110%Q 120%Q;
                           WindowResize; AnimationFrame]
               (committed (demo_canvas (N := Q)) demo_container) = Some (p, []) /\
    squares (comp p) = [] /\ canvas (comp p) = demo_canvas /\
    isHovering (comp p) = true.
Proof.
  split; [reflexivity|].
  destruct (X7_effect_without_canvas_or_context demo_draws
              [MouseEnter; AnimationFrame; MouseMove 110%Q 120%Q;
               WindowResize; AnimationFrame]
              (demo_canvas (N := Q)) demo_container true false eq_refl)
    as (_ & p & E & R & Hs & _ & Hc & _).
  exists p. split; [exact E|]. split; [exact Hs|]. split; [exact Hc|].
  set (r := Centered.run _ _ _) in R. vm_compute in r. subst r.
  injection R as <-. reflexivity.
Defined.

(** ** The element, its props and the icon slot *)

(** X8: the element is a link exactly when [href] is a non-empty string
    (an empty [href] counts as absent); a link carries [href], opens in a
    new browsing context and always has [rel = noopener noreferrer], and never
    has a click handler; a [div] carries the click handler and none of the
    link attributes; and the background class is never empty. *)
Theorem X8_link_or_clickable_div
    {H : Type} (href : option string) (onClick : option H) (bg : option string) :
  (Component href = tag_a <-> exists s, href = Some s /\ s <> ""%string) /\
  (Component href = tag_a ->
   props href onClick =
   mkProps href (Some "_blank"%string) (Some "noopener noreferrer"%string) None) /\
  (Component href = tag_div -> props href onClick = mkProps None None None onClick) /\
  (props_target (props href onClick) = Some "_blank"%string <->
   props_rel (props href onClick) = Some "noopener noreferrer"%string) /\
  (props_onClick (props href onClick) <> None -> props_href (props href onClick) = None) /\
  backgroundClass bg <> ""%string /\
  (forall s, bg = Some s -> s <> ""%string -> backgroundClass bg = s).
Proof.
  assert (Hbg : backgroundClass bg <> ""%string /\
                forall s, bg = Some s -> s <> ""%string -> backgroundClass bg = s).
  { unfold backgroundClass. destruct bg as [b|]; [|split; [done|intros ? [=]]].
    destruct (String.eqb_spec b "") as [->|Hb]; split; try done.
    - intros s [= <-] Hs. done.
    - intros s [= <-] _. done. }
  unfold Component, props, truthy.
  destruct href as [s|]; [destruct (String.eqb_spec s "") as [->|Hs]|]; simpl.
  - split; [split; [done|intros (s & [= <-] & Hn); done]|].
    split; [done|]. split; [done|]. split; [split; done|]. split; [done|]. exact Hbg.
  - split; [split; [intros _; eauto|done]|].
    split; [done|]. split; [done|]. split; [split; done|].
    split; [intros Hn; by destruct Hn|]. exact Hbg.
  - split; [split; [done|intros (s & [=] & _)]|].
    split; [done|]. split; [done|]. split; [split; done|]. split; [done|]. exact Hbg.
Qed.

(** X9: the icon slot shows an icon, at the size asked for, exactly for the
    three supported names; nothing at all when [iconName] is absent or empty;
    and, for any other non-empty name, the wrapper with nothing inside. *)
Theorem X9_icon_slot {N : Type} (sz : N) (iconName : option string) :
  (forall e, iconSlot sz iconName = Some (Some e) <->
     size e = sz /\
     (iconName, component e) ∈ [(Some "Claude"%string, Claude);
                                (Some "OpenAI"%string, OpenAI);
                                (Some "Gemini"%string, Gemini)]) /\
  (iconSlot sz iconName = None <-> iconName = None \/ iconName = Some ""%string) /\
  (iconSlot sz iconName = Some None <->
   exists name, iconName = Some name /\
     name ∉ [""%string; "Claude"%string; "OpenAI"%string; "Gemini"%string]).
Proof.
  unfold iconSlot, ServiceIcon.
  destruct iconName as [name|]; simpl.
  2:{ split; [|split].
      - intros e. split; [done|]. rewrite !elem_of_cons, elem_of_nil.
        intros (_ & [[=]|[[=]|[[=]|[]]]]).
      - split; auto.
      - split; [done|]. intros (? & [=] & _). }
  destruct (String.eqb_spec name "") as [->|H0]; simpl.
  { split; [|split].
    - intros e. split; [done|]. rewrite !elem_of_cons, elem_of_nil.
      intros (_ & [[=]|[[=]|[[=]|[]]]]).
    - split; auto.
    - split; [done|]. intros (? & [= <-] & Hn). exfalso. apply Hn. rewrite !elem_of_cons. auto. }
  destruct (String.eqb_spec name "Claude") as [->|H1];
    [|destruct (String.eqb_spec name "OpenAI") as [->|H2];
      [|destruct (String.eqb_spec name "Gemini") as [->|H3]]].
  - split; [|split].
    + intros [cmp sz']. simpl. rewrite !elem_of_cons, elem_of_nil. split.
      * intros [= <- <-]. auto.
      * intros (-> & [[= <-]|[[=]|[[=]|[]]]]). done.
    + split; [done|]. intros [[=]|[=]].
    + split; [done|]. intros (? & [= <-] & Hn). exfalso. apply Hn. rewrite !elem_of_cons. auto.
  - split; [|split].
    + intros [cmp sz']. simpl. rewrite !elem_of_cons, elem_of_nil. split.
      * intros [= <- <-]. auto.
      * intros (-> & [[=]|[[= <-]|[[=]|[]]]]). done.
    + split; [done|]. intros [[=]|[=]].
    + split; [done|]. intros (? & [= <-] & Hn). exfalso. apply Hn. rewrite !elem_of_cons. auto.
  - split; [|split].
    + intros [cmp sz']. simpl. rewrite !elem_of_cons, elem_of_nil. split.
      * intros [= <- <-]. auto.
      * intros (-> & [[=]|[[=]|[[= <-]|[]]]]). done.
    + split; [done|]. intros [[=]|[=]].
    + split; [done|]. intros (? & [= <-] & Hn). exfalso. apply Hn. rewrite !elem_of_cons. auto.
  - split; [|split].
    + intros [cmp sz']. simpl. rewrite !elem_of_cons, elem_of_nil. split; [done|].
      intros (_ & [[= -> _]|[[= -> _]|[[= -> _]|[]]]]); done.
    + split; [done|]. intros [[=]|[= ->]]. done.
    + split; [|done]. intros _. exists name. split; [done|].
      rewrite !not_elem_of_cons. repeat split; try done. apply not_elem_of_nil.
Qed.

(** ** Lifetimes and the size of the collection *)

Section Survival.
Context {N : Type} {JN : JsNum N}.

Lemma iter_age_fields (n : nat) (sq : Square N) :
  x (Nat.iter n age sq) = x sq /\ y (Nat.iter n age sq) = y sq /\
  opacity (Nat.iter n age sq) = opacity sq /\ decay (Nat.iter n age sq) = decay sq.
Proof.
  induction n as [|n IH]; [done|].
  change (Nat.iter (S n) age sq) with (age (Nat.iter n age sq)). exact IH.
Qed.

Lemma elem_of_iter_advance (n : nat) (l : list (Square N)) (sq' : Square N) :
  sq' ∈ Nat.iter n advance l ->
  exists sq, sq ∈ l /\ sq' = Nat.iter n age sq /\ (n <> 0 -> expired sq' = false).
Proof.
  revert sq'. induction n as [|n IH]; intros sq' Hin.
  - exists sq'. done.
  - simpl in Hin. apply elem_of_advance in Hin as (sq1 & Hin1 & -> & He).
    destruct (IH _ Hin1) as (sq & Hin & -> & _). exists sq. done.
Qed.

Lemma spawnIfHovering_incl (rnd : nat -> N) (s : State N) (sq : Square N) :
  sq ∈ squares s -> sq ∈ squares (Centered.spawnIfHovering rnd s).
Proof.
  intros Hin.
  destruct (spawnIfHovering_calls rnd s)
    as [[_ ->]|[_ [[_ ->]|[[_ ->]|[_ [sq' ->]]]]]]; try done.
  apply elem_of_app. by left.
Qed.

(** A square stays in the collection, aged once per frame, as long as its
    life stays positive, whatever else happens. *)
Lemma run_keeps_live (rnd : nat -> N) (es : list (Event N)) (s : State N)
    (sq : Square N) :
  sq ∈ squares s ->
  (forall j, 1 ≤ j ≤ frames es -> expired (Nat.iter j age sq) = false) ->
  exists s' ops,
    Centered.run rnd es s = Some (s', ops) /\
    Nat.iter (frames es) age sq ∈ squares s'.
Proof.
  revert s sq. induction es as [|e es IH]; intros s sq Hin Hlive.
  - exists s, []. done.
  - assert (exists s1 ops1, Centered.step rnd e s = Some (s1, ops1) /\
              Nat.iter (frames [e]) age sq ∈ squares s1)
      as (s1 & ops1 & E1 & Hin1).
    { destruct e; simpl; try (eexists _, _; split; [done|]; done).
      - eexists _, _. split; [done|]. unfold Centered.handleMouseMove.
        by destruct (containerRef s).
      - eexists _, _. split; [done|]. unfold Centered.resizeCanvas.
        by destruct (containerRef s).
      - rewrite render_eq. cbv zeta. eexists _, _. split; [done|]. simpl.
        apply elem_of_advance. exists sq. split; [by apply spawnIfHovering_incl|].
        split; [done|]. apply (Hlive 1). unfold frames. simpl. lia. }
    assert (Hf : frames (e :: es) = frames [e] + frames es).
    { unfold frames. by destruct e. }
    destruct (IH s1 (Nat.iter (frames [e]) age sq) Hin1) as (s2 & ops2 & E2 & Hin2).
    { intros j Hj. rewrite <- Nat.iter_add. apply Hlive. lia. }
    exists s2, (ops1 ++ ops2). simpl. rewrite E1, E2. split; [done|].
    rewrite Hf, Nat.add_comm, Nat.iter_add. done.
Qed.

End Survival.

Section ExactMore.
Local Open Scope Q_scope.

Lemma inject_Z_S (k : nat) :
  inject_Z (Z.of_nat (S k)) == inject_Z (Z.of_nat k) + 1.
Proof. rewrite Nat2Z.inj_succ. unfold Z.succ. by rewrite inject_Z_plus. Qed.

Lemma life_iter_age (n : nat) (sq : Square Q) :
  life (Nat.iter n age sq) == life sq - inject_Z (Z.of_nat n) * decay sq.
Proof.
  induction n as [|n IH].
  - simpl. change (inject_Z 0) with 0. ring.
  - change (Nat.iter (S n) age sq) with (age (Nat.iter n age sq)).
    unfold age at 1. js_Q. simpl.
    destruct (iter_age_fields n sq) as (_ & _ & _ & ->).
    rewrite IH, inject_Z_S. ring.
Qed.

Lemma aged_from_weaken (k : nat) (l : list (Square Q)) :
  aged_from (S k) l -> aged_from k l.
Proof.
  revert k. induction l as [|sq l IH]; intros k; simpl; [done|].
  intros [Hl Hr]. split; [|by apply IH].
  rewrite inject_Z_S in Hl. lra.
Qed.

Lemma aged_from_filter (f : Square Q -> bool) (k : nat) (l : list (Square Q)) :
  aged_from k l -> aged_from k (List.filter f l).
Proof.
  revert k. induction l as [|sq l IH]; intros k; simpl; [done|].
  intros [Hl Hr]. destruct (f sq); simpl.
  - split; [done|]. by apply IH.
  - apply IH. by apply aged_from_weaken.
Qed.

Lemma aged_from_age (k : nat) (l : list (Square Q)) :
  (forall sq, sq ∈ l -> 1 # 100 <= decay sq) ->
  aged_from k l -> aged_from (S k) (map age l).
Proof.
  revert k. induction l as [|sq l IH]; intros k Hd; simpl; [done|].
  intros [Hl Hr]. split.
  - pose proof (Hd sq (list_elem_of_here _ _)) as H1.
    unfold age. js_Q. simpl. rewrite inject_Z_S. lra.
  - apply IH; [|done]. intros sq' Hin. apply Hd. by apply list_elem_of_further.
Qed.

Lemma rev_advance (l : list (Square Q)) : rev (advance l) = advance (rev l).
Proof. unfold advance. by rewrite <- List.filter_rev, <- map_rev. Qed.

Lemma aged_from_length (k : nat) (l : list (Square Q)) :
  aged_from k l -> (forall sq, sq ∈ l -> 0 < life sq) ->
  l = [] \/ (k + length l ≤ 100)%nat.
Proof.
  revert k. induction l as [|sq l IH]; intros k Ha Hp; [by left|right].
  destruct Ha as [Hl Hr].
  pose proof (Hp sq (list_elem_of_here _ _)) as Hpos.
  assert (Hk : (k < 100)%nat).
  { assert (inject_Z (Z.of_nat k) < inject_Z 100) as Hq
      by (change (inject_Z 100) with 100; lra).
    rewrite <- Zlt_Qlt in Hq. lia. }
  destruct (IH (S k) Hr) as [->|Hlen].
  - intros sq' Hin. apply Hp. by apply list_elem_of_further.
  - simpl. lia.
  - simpl. lia.
Qed.

Lemma spawnIfHovering_new (rnd : nat -> Q) (s : State Q) :
  squares (Centered.spawnIfHovering rnd s) = squares s \/
  exists sq,
    squares (Centered.spawnIfHovering rnd s) = squares s ++ [sq] /\
    life sq = 1 /\ on_grid sq /\ (draws_ok rnd -> square_ok sq).
Proof.
  unfold Centered.spawnIfHovering. destruct (isHovering s); [|by left].
  unfold random. cbv zeta beta iota.
  match goal with |- context [if ?b then _ else _] => destruct b end;
    [|by left].
  rewrite spawn_eq. cbv zeta.
  cbn [mousePos randomCalls squares position opacityState isHovering canvas
       containerRef].
  match goal with |- context [if ?b then _ else _] => destruct b end;
    [|by left].
  right. eexists. split; [reflexivity|]. split; [reflexivity|]. split.
  - unfold on_grid. cbn [x y]. eexists _, _. split; apply snap_eq.
  - intros Hd. apply spawned_ok; apply Hd.
Qed.

Lemma render_collection_ok (rnd : nat -> Q) (s s' : State Q) (ops : list (DrawOp Q)) :
  draws_ok rnd -> collection_ok s -> Centered.render rnd s = Some (s', ops) ->
  collection_ok s'.
Proof.
  intros Hd [Hm Ha]. rewrite render_eq. cbv zeta. intros [= <- _].
  unfold collection_ok. cbn [squares set_squares].
  set (l1 := squares (Centered.spawnIfHovering rnd s)).
  assert (H1 : (forall sq, sq ∈ l1 -> square_ok sq /\ on_grid sq) /\
               aged_from 0 (rev l1)).
  { unfold l1. destruct (spawnIfHovering_new rnd s)
      as [->|(sq & -> & Hl & Hg & Hok)].
    - split; [|by apply aged_from_weaken].
      intros sq Hin. destruct (Hm sq Hin) as (? & _ & ?). done.
    - split.
      + intros sq' [Hin| ->%list_elem_of_singleton]%elem_of_app; [|by auto].
        destruct (Hm sq' Hin) as (? & _ & ?). done.
      + rewrite rev_app_distr. simpl. split; [|done].
        rewrite Hl. change (inject_Z (Z.of_nat 0)) with 0. lra. }
  destruct H1 as [H1 H2]. split.
  - intros sq' (sq0 & Hin & -> & He)%elem_of_advance.
    destruct (H1 sq0 Hin) as [Hok Hg].
    destruct (age_ok sq0 Hok) as (Hok' & _ & _). split; [done|]. split.
    + apply expired_false in He. split; [done|].
      destruct Hok as (? & ? & _). unfold age. js_Q. simpl. lra.
    + exact Hg.
  - rewrite rev_advance. apply aged_from_filter, aged_from_age; [|done].
    intros sq Hin. rewrite list_elem_of_In, <- in_rev, <- list_elem_of_In in Hin.
    destruct (H1 sq Hin) as [(_ & ? & _) _]. done.
Qed.

Lemma run_collection_ok (rnd : nat -> Q) (es : list (Event Q)) (s : State Q) :
  draws_ok rnd -> collection_ok s ->
  exists s' ops, Centered.run rnd es s = Some (s', ops) /\ collection_ok s'.
Proof.
  intros Hd. revert s. induction es as [|e es IH]; intros s Hs.
  - by exists s, [].
  - destruct (step_total rnd e s) as [[s1 ops1] E1].
    assert (H1 : collection_ok s1).
    { destruct e; simpl in E1; try (injection E1 as <- _; exact Hs).
      - injection E1 as <- _. unfold Centered.handleMouseMove.
        by destruct (containerRef s).
      - injection E1 as <- _. unfold Centered.resizeCanvas.
        by destruct (containerRef s).
      - by eapply render_collection_ok. }
    destruct (IH s1 H1) as (s2 & ops2 & E2 & H2).
    exists s2, (ops1 ++ ops2). simpl. by rewrite E1, E2.
Qed.

Lemma reachable_collection_ok (rnd : nat -> Q) (s : State Q) :
  draws_ok rnd -> reachable rnd s -> collection_ok s.
Proof.
  intros Hd (es & cv & c & ops & E).
  destruct (run_collection_ok rnd es (Centered.initial cv c) Hd)
    as (s' & ops' & E' & H').
  { split; [|done]. intros sq Hin. simpl in Hin. by apply elem_of_nil in Hin. }
  rewrite E in E'. by injection E' as <- _.
Qed.

End ExactMore.

(** ** Further properties of the exact model *)

Section ExactExtras.
Local Open Scope Q_scope.

Lemma collection_positive (s : State Q) (sq : Square Q) :
  collection_ok s -> sq ∈ squares s ->
  0 < life sq /\ life sq <= 1 - decay sq /\ 1 # 100 <= decay sq /\
  decay sq < 4 # 100 /\ 2 # 10 <= opacity sq /\ opacity sq < 7 # 10 /\ on_grid sq.
Proof.
  intros [Hm _] Hin. destruct (Hm sq Hin) as ((_ & ? & ? & ? & ?) & (? & ?) & ?).
  done.
Qed.

(** X10: the collection of a mounted component never holds more than 99
    squares: at most one is spawned per frame and none outlives 99 frames. *)
Theorem X10_at_most_99_squares
    (rnd : nat -> Q) (es : list (Event Q)) (cv : Canvas Q) (c : option (Container Q)) :
  draws_ok rnd ->
  exists s ops,
    Centered.run rnd es (Centered.initial cv c) = Some (s, ops) /\
    (length (squares s) ≤ 99)%nat.
Proof.
  intros Hd.
  destruct (run_collection_ok rnd es (Centered.initial cv c) Hd)
    as (s & ops & E & Hs).
  { split; [|done]. intros sq Hin. simpl in Hin. by apply elem_of_nil in Hin. }
  exists s, ops. split; [done|].
  destruct (aged_from_length 1 (rev (squares s))) as [E0|Hlen].
  - apply Hs.
  - intros sq Hin. rewrite list_elem_of_In, <- in_rev, <- list_elem_of_In in Hin.
    by destruct (collection_positive s sq Hs Hin).
  - apply (f_equal length) in E0. rewrite length_rev in E0. simpl in E0. lia.
  - rewrite length_rev in Hlen. lia.
Qed.

Lemma iter_advance_drained (n : nat) (l : list (Square Q)) :
  (forall sq, sq ∈ l -> life sq <= 1 - decay sq /\ 1 # 100 <= decay sq) ->
  (99 ≤ n)%nat -> Nat.iter n advance l = [].
Proof.
  intros Hl Hn. destruct (Nat.iter n advance l) as [|sq' rest] eqn:E; [done|].
  exfalso.
  assert (Hin : sq' ∈ Nat.iter n advance l) by (rewrite E; apply list_elem_of_here).
  apply elem_of_iter_advance in Hin as (sq & Hin & -> & He).
  specialize (He ltac:(lia)). apply expired_false in He.
  rewrite life_iter_age in He. destruct (Hl sq Hin) as [H1 H2].
  assert (Hq : 99 <= inject_Z (Z.of_nat n)).
  { change 99 with (inject_Z 99). rewrite <- Zle_Qle. lia. }
  set (q := inject_Z (Z.of_nat n)) in *. nra.
Qed.

(** X11: once the pointer has left, 99 frames without a pointer-enter
    empty the collection, whatever it held; from then on a frame only clears
    the canvas. *)
Theorem X11_drained_99_frames_after_leave
    (rnd : nat -> Q) (es : list (Event Q)) (s : State Q) :
  draws_ok rnd -> reachable rnd s -> noEnter es = true -> (99 ≤ frames es)%nat ->
  exists s' ops,
    Centered.run rnd (MouseLeave :: es) s = Some (s', ops) /\
    squares s' = [] /\
    Centered.render rnd s' =
      Some (s', [clearRect 0 0 (width (canvas s')) (height (canvas s'))]).
Proof.
  intros Hd Hr Hne Hf.
  pose proof (reachable_collection_ok rnd s Hd Hr) as Hs.
  destruct (run_idle rnd es (Centered.handleMouseLeave s) Hne eq_refl)
    as (s' & ops & E & Hh & _ & Hsq).
  exists s', ops. simpl. rewrite E. split; [done|].
  assert (Hnil : squares s' = []).
  { rewrite Hsq. apply iter_advance_drained; [|done].
    intros sq Hin. simpl in Hin.
    destruct (collection_positive s sq Hs Hin) as (_ & ? & ? & _). done. }
  split; [done|]. rewrite render_idle by done. rewrite Hnil.
  clear E Hsq Hh. destruct s'. simpl in Hnil. subst. reflexivity.
Qed.

(** X12: a square spawned in a frame is still in the collection, with a
    positive life, after each of the next 23 frames, whatever events come in
    between: it is painted in at least 24 consecutive frames.  On binary64
    the bound is attained: with the largest decay a spawn can sample the
    square survives its 24th ageing and is removed by the 25th. *)
Theorem X12_spawned_square_lives_24_frames
    (rnd : nat -> Q) (es : list (Event Q)) (s : State Q) (sq : Square Q)
    (fx fy fo : float) :
  draws_ok rnd ->
  squares (Centered.spawnIfHovering rnd s) = squares s ++ [sq] ->
  (frames es ≤ 23)%nat ->
  (exists s1 ops1 s2 ops2,
     Centered.render rnd s = Some (s1, ops1) /\
     Centered.run rnd es s1 = Some (s2, ops2) /\
     Nat.iter (S (frames es)) age sq ∈ squares s2 /\
     0 < life (Nat.iter (S (frames es)) age sq)) /\
  (largest_decay = 0.039999999999999994%float /\
   expired (Nat.iter 24 age (mkSquare fx fy fo (lit 1) largest_decay)) = false /\
   expired (Nat.iter 25 age (mkSquare fx fy fo (lit 1) largest_decay)) = true).
Proof.
  intros Hd Hsp Hf. split; [|vm_compute; auto].
  assert (Hsq : life sq = 1 /\ square_ok sq).
  { destruct (spawnIfHovering_new rnd s) as [E|(sq' & E & Hl & _ & Hok)];
      rewrite E in Hsp.
    - apply (f_equal length) in Hsp. rewrite length_app in Hsp. simpl in Hsp. lia.
    - apply app_inj_tail in Hsp as [_ <-]. auto. }
  destruct Hsq as [Hl (_ & Hd1 & Hd2 & _)].
  assert (Hpos : forall j, (1 ≤ j ≤ 24)%nat -> 0 < life (Nat.iter j age sq)).
  { intros j Hj. rewrite life_iter_age, Hl.
    assert (Hq : inject_Z (Z.of_nat j) <= 24).
    { change 24 with (inject_Z 24). rewrite <- Zle_Qle. lia. }
    assert (Hq0 : 0 <= inject_Z (Z.of_nat j)).
    { change 0 with (inject_Z 0). rewrite <- Zle_Qle. lia. }
    set (q := inject_Z (Z.of_nat j)) in *. nra. }
  destruct (render_paints rnd s) as (s1 & ops1 & E1 & Hs1 & _).
  assert (Hin1 : age sq ∈ squares s1).
  { rewrite Hs1, Hsp, advance_app. apply elem_of_app. right.
    apply elem_of_advance. exists sq. split; [apply list_elem_of_here|].
    split; [done|]. apply expired_false. apply (Hpos 1%nat). lia. }
  destruct (run_keeps_live rnd es s1 (age sq) Hin1) as (s2 & ops2 & E2 & Hin2).
  { intros j Hj. apply expired_false.
    rewrite <- (Nat.iter_succ_r j age sq). apply Hpos. lia. }
  exists s1, ops1, s2, ops2. split; [done|]. split; [done|].
  rewrite Nat.iter_succ_r. split; [done|].
  rewrite <- (Nat.iter_succ_r (frames es) age sq). apply Hpos. lia.
Qed.

(** X13: every frame of a mounted component draws one [clearRect] of the
    whole canvas and then one [fillRect] per surviving square, each white,
    40 by 40, at a position on the 40-pixel grid and with an alpha strictly
    between 0 and 0.7. *)
Theorem X13_frame_drawing (rnd : nat -> Q) (s : State Q) :
  draws_ok rnd -> reachable rnd s ->
  exists s' fills,
    Centered.render rnd s =
      Some (s', clearRect 0 0 (width (canvas s)) (height (canvas s)) :: fills) /\
    length fills = length (squares s') /\
    forall op, op ∈ fills ->
      exists a i j,
        op = fillRect 255 255 255 a (inject_Z i * 40) (inject_Z j * 40) 40 40 /\
        0 < a /\ a < 7 # 10.
Proof.
  intros Hd Hr. pose proof (reachable_collection_ok rnd s Hd Hr) as Hs.
  destruct (render_paints rnd s) as (s' & ops & E & _ & ->).
  pose proof (render_collection_ok rnd s s' _ Hd Hs E) as Hs'.
  exists s', (map paint (rev (squares s'))). split; [done|].
  split; [by rewrite length_map, length_rev|].
  intros op (sq & -> & Hin)%list_elem_of_fmap.
  rewrite list_elem_of_In, <- in_rev, <- list_elem_of_In in Hin.
  destruct (collection_positive s' sq Hs' Hin)
    as (? & ? & ? & ? & ? & ? & (i & j & Hx & Hy)).
  exists (opacity sq * life sq), i, j. unfold paint. rewrite Hx, Hy.
  split; [reflexivity|]. split; nra.
Qed.

Lemma dx_bounds (p u : Q) :
  -200 + 400 * u - 20 < snap (candidate p u) + 20 - p /\
  snap (candidate p u) + 20 - p <= -200 + 400 * u + 20.
Proof.
  destruct (snap_bounds (candidate p u)) as [H1 H2].
  pose proof (candidate_eq p u) as E.
  set (g := snap (candidate p u)) in *. set (cd := candidate p u) in *.
  split; lra.
Qed.

(** X14: a spawn attempt whose two offset draws both lie in [0.2, 0.8] is
    always accepted: the candidate is then within 120 of the pointer on each
    axis and the centre of its cell within 200 of it. *)
Theorem X14_central_candidates_are_accepted (rnd : nat -> Q) (s : State Q) :
  1 # 5 <= rnd (randomCalls s) /\ rnd (randomCalls s) <= 4 # 5 ->
  1 # 5 <= rnd (S (randomCalls s)) /\ rnd (S (randomCalls s)) <= 4 # 5 ->
  exists sq,
    squares (Centered.spawn rnd s) = squares s ++ [sq] /\
    randomCalls (Centered.spawn rnd s) = (4 + randomCalls s)%nat.
Proof.
  intros [Hu1 Hu2] [Hv1 Hv2]. rewrite spawn_eq. cbv zeta.
  match goal with |- context [if sqrt_lt ?d ?r then _ else _] =>
    assert (Hacc : sqrt_lt d r = true) end.
  { apply accept_iff.
    destruct (dx_bounds (px (mousePos s)) (rnd (randomCalls s))) as [A1 A2].
    destruct (dx_bounds (py (mousePos s)) (rnd (S (randomCalls s)))) as [B1 B2].
    set (dx := snap _ + 20 - px (mousePos s)) in *.
    set (dy := snap _ + 20 - py (mousePos s)) in *.
    simpl. nra. }
  rewrite Hacc. eexists. split; reflexivity.
Qed.

(** X15: a spawn attempt whose two offset draws both lie within 0.09 of an
    end of [0, 1) is always rejected: the candidate is in a corner of the
    square, outside the circle, and the attempt stops after its two offset
    draws, leaving the collection as it was. *)
Theorem X15_corner_candidates_are_rejected (rnd : nat -> Q) (s : State Q) :
  rnd (randomCalls s) <= 9 # 100 \/ 91 # 100 <= rnd (randomCalls s) ->
  rnd (S (randomCalls s)) <= 9 # 100 \/ 91 # 100 <= rnd (S (randomCalls s)) ->
  squares (Centered.spawn rnd s) = squares s /\
  randomCalls (Centered.spawn rnd s) = (2 + randomCalls s)%nat.
Proof.
  intros Hu Hv. rewrite spawn_eq. cbv zeta.
  match goal with |- context [if sqrt_lt ?d ?r then _ else _] =>
    assert (Hrej : sqrt_lt d r = false) end.
  { apply not_true_iff_false. rewrite accept_iff.
    destruct (dx_bounds (px (mousePos s)) (rnd (randomCalls s))) as [A1 A2].
    destruct (dx_bounds (py (mousePos s)) (rnd (S (randomCalls s)))) as [B1 B2].
    set (dx := snap _ + 20 - px (mousePos s)) in *.
    set (dy := snap _ + 20 - py (mousePos s)) in *.
    simpl. intros Hlt.
    assert (Hx : 20736 <= dx * dx) by (destruct Hu; nra).
    assert (Hy : 20736 <= dy * dy) by (destruct Hv; nra).
    lra. }
  rewrite Hrej. split; reflexivity.
Qed.

End ExactExtras.

(** X16: in variant 2 the dark overlay has opacity 0 or 0.7 in every state
    the component can reach, and 0 whenever the hovering flag is set; on
    rationals and on binary64 alike. *)
Theorem X16_dark_overlay_opacity
    (rnd : nat -> Q) (es : list (Event Q)) (cv : Canvas Q) (c : option (Container Q))
    (frnd : nat -> float) (fes : list (Event float)) (fcv : Canvas float)
    (fc : option (Container float)) :
  (exists s ops,
     Split.run rnd es (Split.initial cv c) = Some (s, ops) /\
     (overlayOpacity s == 0 \/ overlayOpacity s == 7 # 10)%Q /\
     (isHovering s = true -> overlayOpacity s == 0)%Q) /\
  (exists s ops,
     Split.run frnd fes (Split.initial fcv fc) = Some (s, ops) /\
     (overlayOpacity s = 0%float \/ overlayOpacity s = 0.7%float) /\
     (isHovering s = true -> overlayOpacity s = 0%float)).
Proof.
  split.
  - destruct (run_pointer_state rnd es cv c) as (s & ops & E & Ho & Hh & _).
    exists s, ops. rewrite Split_run. split; [exact E|].
    unfold overlayOpacity. split.
    + destruct Ho as [-> | ->]; [right|left]; reflexivity.
    + intros H. rewrite (Hh H). reflexivity.
  - destruct (run_pointer_state frnd fes fcv fc) as (s & ops & E & Ho & Hh & _).
    exists s, ops. rewrite Split_run. split; [exact E|].
    unfold overlayOpacity. split.
    + destruct Ho as [-> | ->]; [right|left]; vm_compute; reflexivity.
    + intros H. rewrite (Hh H). vm_compute. reflexivity.
Qed.

(** ** The further properties at concrete inputs *)

Lemma demo_one_square_reachable : reachable demo_draws (demo_one_square (N := Q)).
Proof.
  exists [MouseEnter; MouseMove 110%Q 120%Q; AnimationFrame], demo_canvas, demo_container.
  eexists. vm_compute. reflexivity.
Qed.

Lemma X10_witness :
  draws_ok demo_draws /\
  exists s ops,
    Centered.run demo_draws
      [MouseEnter; MouseMove 110%Q 120%Q; AnimationFrame; AnimationFrame]
      (Centered.initial demo_canvas demo_container) = Some (s, ops) /\
    length (squares s) ≤ 99.
Proof.
  split; [exact demo_draws_ok|].
  exact (X10_at_most_99_squares demo_draws
           [MouseEnter; MouseMove 110%Q 120%Q; AnimationFrame; AnimationFrame]
           demo_canvas demo_container demo_draws_ok).
Defined.

Lemma X11_witness :
  draws_ok demo_draws /\ reachable demo_draws (demo_one_square (N := Q)) /\
  noEnter (replicate 99 (AnimationFrame (N := Q))) = true /\
  99 ≤ frames (replicate 99 (AnimationFrame (N := Q))) /\
  length (squares (demo_one_square (N := Q))) = 1 /\
  exists s' ops,
    Centered.run demo_draws (MouseLeave :: replicate 99 AnimationFrame)
                 (demo_one_square (N := Q)) = Some (s', ops) /\
    squares s' = [].
Proof.
  split; [exact demo_draws_ok|]. split; [exact demo_one_square_reachable|].
  split; [reflexivity|]. split; [vm_compute; lia|]. split; [reflexivity|].
  destruct (X11_drained_99_frames_after_leave demo_draws
              (replicate 99 AnimationFrame) (demo_one_square (N := Q))
              demo_draws_ok demo_one_square_reachable eq_refl
              ltac:(vm_compute; lia)) as (s' & ops & E & Hs & _).
  exists s', ops. split; [exact E|exact Hs].
Defined.

Lemma X12_witness :
  draws_ok demo_draws /\
  exists sq s2 ops2,
    squares (Centered.spawnIfHovering demo_draws (demo_hover (N := Q))) =
      squares (demo_hover (N := Q)) ++ [sq] /\
    Centered.run demo_draws (replicate 23 AnimationFrame)
                 (demo_one_square (N := Q)) = Some (s2, ops2) /\
    Nat.iter 24 age sq ∈ squares s2 /\
    (0 < life (Nat.iter 24 age sq))%Q.
Proof.
  split; [exact demo_draws_ok|].
  assert (Hsp : exists sq,
            squares (Centered.spawnIfHovering demo_draws (demo_hover (N := Q))) =
            squares (demo_hover (N := Q)) ++ [sq]).
  { eexists. vm_compute. reflexivity. }
  destruct Hsp as [sq Hsp].
  destruct (X12_spawned_square_lives_24_frames demo_draws
              (replicate 23 AnimationFrame) demo_hover sq 0%float 0%float 0%float
              demo_draws_ok Hsp ltac:(vm_compute; lia))
    as ((s1 & ops1 & s2 & ops2 & E1 & E2 & Hin & Hpos) & _).
  exists sq, s2, ops2. split; [exact Hsp|].
  assert (Es : s1 = demo_one_square).
  { assert (E1' : Centered.render demo_draws demo_hover
                  = Some (demo_one_square (N := Q), ops1)).
    { rewrite E1. f_equal. f_equal. vm_compute in E1. injection E1 as <- _.
      vm_compute. reflexivity. }
    rewrite E1 in E1'. by injection E1' as ->. }
  rewrite <- Es. split; [exact E2|]. split; [exact Hin|exact Hpos].
Defined.

Lemma X13_witness :
  draws_ok demo_draws /\ reachable demo_draws (demo_one_square (N := Q)) /\
  exists s' fills,
    Centered.render demo_draws (demo_one_square (N := Q)) =
      Some (s', clearRect 0%Q 0%Q 300%Q 150%Q :: fills) /\
    length fills = length (squares s').
Proof.
  split; [exact demo_draws_ok|]. split; [exact demo_one_square_reachable|].
  destruct (X13_frame_drawing demo_draws (demo_one_square (N := Q))
              demo_draws_ok demo_one_square_reachable) as (s' & fills & E & Hl & _).
  exists s', fills. split; [exact E|exact Hl].
Defined.

Lemma X14_witness :
  ((1 # 5 <= demo_draws (randomCalls (demo_one_square (N := Q))))%Q /\
   (demo_draws (randomCalls (demo_one_square (N := Q))) <= 4 # 5)%Q) /\
  exists sq,
    squares (Centered.spawn demo_draws (demo_one_square (N := Q))) =
    squares (demo_one_square (N := Q)) ++ [sq].
Proof.
  assert (H1 : (1 # 5 <= demo_draws (randomCalls (demo_one_square (N := Q))))%Q /\
               (demo_draws (randomCalls (demo_one_square (N := Q))) <= 4 # 5)%Q).
  { split; vm_compute; discriminate. }
  assert (H2 : (1 # 5 <= demo_draws (S (randomCalls (demo_one_square (N := Q)))))%Q /\
               (demo_draws (S (randomCalls (demo_one_square (N := Q)))) <= 4 # 5)%Q).
  { split; vm_compute; discriminate. }
  split; [exact H1|].
  destruct (X14_central_candidates_are_accepted demo_draws
              (demo_one_square (N := Q)) H1 H2) as (sq & E & _).
  exists sq. exact E.
Defined.

Lemma X15_witness :
  ((fun _ : nat => 0%Q) (randomCalls (demo_hover (N := Q))) <= 9 # 100)%Q /\
  squares (Centered.spawn (fun _ => 0%Q) (demo_hover (N := Q))) =
  squares (demo_hover (N := Q)) /\
  randomCalls (Centered.spawn (fun _ => 0%Q) (demo_hover (N := Q))) = 2.
Proof.
  assert (H : (0 <= 9 # 100)%Q) by (vm_compute; discriminate).
  split; [exact H|].
  exact (X15_corner_candidates_are_rejected (fun _ => 0%Q) (demo_hover (N := Q))
           (or_introl H) (or_introl H)).
Defined.
